(** * Alert monitoring of the ground-control desktop application

    A shallow embedding of [src/lib/alertMonitoring.ts]: the deduplication
    store [activeAlerts], the dispatcher ([emitAlert], [clearAlert]), the
    condition checkers, the haversine distance and the entry points
    [checkAlerts], [getActiveAlerts] and [clearAllAlerts].

    Conventions of the embedding.
    - [Date.now()] yields integer milliseconds: timestamps are [Z].  The
      clock is an oracle [clock : nat -> Z]; the n-th call of [Date.now()]
      returns [clock n], so no assumption on monotonicity is built in.
    - The numbers of a telemetry record are modelled as real numbers [R];
      [Math.sin], [Math.cos], [Math.sqrt] and [Math.atan2] are the exact
      functions, so IEEE-754 rounding and NaN are outside the model.
    - [Number.prototype.toFixed] only feeds the text of a description; it is
      a parameter [toFixed] of the development.
    - [emit] of the event bridge is fire-and-forget: a publish appends the
      event to the trace [published]; [console.log] appends to [console]. *)

From Stdlib Require Import List String Ascii Bool ZArith Reals Lra Lia.
Import ListNotations.

Local Open Scope list_scope.
Local Open Scope string_scope.

(** ** The JavaScript [Map<string, number>]

    A [Map] iterates in insertion order, and [clearAllAlerts] and
    [getActiveAlerts] observe that order, so the store is an association
    list: oldest key first, one entry per key. *)
Module JsMap.

Definition t := list (string * Z).

Definition empty : t := [].

Fixpoint get (m : t) (k : string) : option Z :=
  match m with
  | [] => None
  | (k', v) :: m' => if String.eqb k' k then Some v else get m' k
  end.

Definition has (m : t) (k : string) : bool :=
  match get m k with Some _ => true | None => false end.

(** [set] overwrites in place when the key exists, else appends. *)
Fixpoint set (m : t) (k : string) (v : Z) : t :=
  match m with
  | [] => [(k, v)]
  | (k', v') :: m' =>
      if String.eqb k' k then (k', v) :: m' else (k', v') :: set m' k v
  end.

Fixpoint delete (m : t) (k : string) : t :=
  match m with
  | [] => []
  | (k', v') :: m' =>
      if String.eqb k' k then delete m' k else (k', v') :: delete m' k
  end.

Definition keys (m : t) : list string := map fst m.

(** The representation invariant: a key occurs once. *)
Definition wf (m : t) : Prop := NoDup (keys m).

End JsMap.

(** ** Events on the notification channel *)

Inductive Severity : Set := error | warning.

Inductive Event : Set :=
| create_toast (id : string) (type : Severity) (title description : string)
| dismiss_toast (id : string).

Definition is_create (e : Event) : bool :=
  match e with create_toast _ _ _ _ => true | dismiss_toast _ => false end.

(** ** Configuration *)

Record Thresholds : Set := mkThresholds {
  SIGNAL_STRENGTH : R;
  LOW_BATTERY : R;
  PROXIMITY : R
}.

Definition ALERT_THRESHOLDS : Thresholds :=
  {| SIGNAL_STRENGTH := (-70)%R; LOW_BATTERY := 20%R; PROXIMITY := 100%R |}.

Definition ALERT_UPDATE_DEBOUNCE : Z := 3000.

(** ** Telemetry *)

(** Modelled from the spec: the type [VehicleTelemetryData] of [./bindings]
    is not part of the sources.  [checkAlerts] reads the three vehicle
    entries, each possibly absent, and of a record the signal strength, the
    status string, the battery life and the optional position. *)
Record Coordinate : Set := mkCoordinate {
  latitude : R;
  longitude : R
}.

Record VehicleData : Set := mkVehicleData {
  signal_strength : R;
  vehicle_status : string;
  battery_life : R;
  current_position : option Coordinate
}.

Record VehicleTelemetryData : Set := mkTelemetry {
  ERU : option VehicleData;
  MEA : option VehicleData;
  MRA : option VehicleData
}.

(** [telemetryState[vehicle]] *)
Definition telemetry_get (ts : VehicleTelemetryData) (vehicle : string)
  : option VehicleData :=
  if String.eqb vehicle "ERU" then ERU ts
  else if String.eqb vehicle "MEA" then MEA ts
  else if String.eqb vehicle "MRA" then MRA ts
  else None.

(** [telemetryState.X?.current_position] *)
Definition position_of (d : option VehicleData) : option Coordinate :=
  match d with
  | Some data => current_position data
  | None => None
  end.

(** ** The world the module acts on *)

Record World : Set := mkWorld {
  activeAlerts : JsMap.t;
  published : list Event;
  console : list string;
  ticks : nat
}.

Definition initial : World :=
  {| activeAlerts := JsMap.empty; published := []; console := []; ticks := 0 |}.

(** A small state monad over [World]. *)
Definition M (A : Type) : Type := World -> A * World.

Definition ret {A : Type} (a : A) : M A := fun w => (a, w).

Definition bind {A B : Type} (m : M A) (k : A -> M B) : M B :=
  fun w => let (a, w') := m w in k a w'.

Definition exec {A : Type} (m : M A) (w : World) : World := snd (m w).

Declare Scope monad_scope.
Delimit Scope monad_scope with monad.
Notation "x <- m ;; k" := (bind m (fun x => k))
  (at level 61, m at next level, right associativity) : monad_scope.
Notation "m ;; k" := (bind m (fun _ => k))
  (at level 61, right associativity) : monad_scope.
Local Open Scope monad_scope.

Definition activeAlerts_get (k : string) : M (option Z) :=
  fun w => (JsMap.get (activeAlerts w) k, w).

Definition activeAlerts_has (k : string) : M bool :=
  fun w => (JsMap.has (activeAlerts w) k, w).

Definition activeAlerts_set (k : string) (v : Z) : M unit :=
  fun w => (tt, {| activeAlerts := JsMap.set (activeAlerts w) k v;
                   published := published w;
                   console := console w;
                   ticks := ticks w |}).

Definition activeAlerts_delete (k : string) : M unit :=
  fun w => (tt, {| activeAlerts := JsMap.delete (activeAlerts w) k;
                   published := published w;
                   console := console w;
                   ticks := ticks w |}).

Definition activeAlerts_clear : M unit :=
  fun w => (tt, {| activeAlerts := JsMap.empty;
                   published := published w;
                   console := console w;
                   ticks := ticks w |}).

Definition emit (e : Event) : M unit :=
  fun w => (tt, {| activeAlerts := activeAlerts w;
                   published := published w ++ [e];
                   console := console w;
                   ticks := ticks w |}).

Definition console_log (s : string) : M unit :=
  fun w => (tt, {| activeAlerts := activeAlerts w;
                   published := published w;
                   console := console w ++ [s];
                   ticks := ticks w |}).

Fixpoint forEach {A : Type} (l : list A) (f : A -> M unit) : M unit :=
  match l with
  | [] => ret tt
  | x :: l' => f x ;; forEach l' f
  end.

(** ** Helper functions of the source *)

Definition getAlertKey (vehicle type : string) : string :=
  vehicle ++ "_" ++ type.

(** [Math.atan2 y x] on real numbers: the angle of the point [(x, y)],
    by quadrant, with the value 0 at the origin. *)
Definition Math_atan2 (y x : R) : R :=
  if Rlt_dec 0 x then atan (y / x)
  else if Rlt_dec x 0 then
    if Rle_dec 0 y then (atan (y / x) + PI)%R else (atan (y / x) - PI)%R
  else if Rlt_dec 0 y then (PI / 2)%R
  else if Rlt_dec y 0 then (- (PI / 2))%R
  else 0%R.

(** The haversine expression on real numbers.  The engine evaluates it in
    double precision: its result differs from this one by rounding, and it
    is NaN where the rounded haversine term exceeds 1 (points close to
    antipodal).  What is proved of this function is proved of the
    real-number expression; nothing is stated of the rounding or of the
    NaN results of the engine. *)
Definition calculateDistance (lat1 lon1 lat2 lon2 : R) : R :=
  let R_ := 3959%R in
  let dLat := (((lat2 - lat1) * PI) / 180)%R in
  let dLon := (((lon2 - lon1) * PI) / 180)%R in
  let a :=
    (sin (dLat / 2) * sin (dLat / 2) +
     cos ((lat1 * PI) / 180) *
       cos ((lat2 * PI) / 180) *
       sin (dLon / 2) *
       sin (dLon / 2))%R in
  let c := (2 * Math_atan2 (sqrt a) (sqrt (1 - a)))%R in
  (R_ * c * 5280)%R.

(** [!lastUpdate]: [undefined] and [0] are falsy. *)
Definition falsy (lastUpdate : option Z) : bool :=
  match lastUpdate with
  | None => true
  | Some t => Z.eqb t 0
  end.

(** [!lastUpdate || (now - lastUpdate) >= ALERT_UPDATE_DEBOUNCE] *)
Definition shouldUpdate (lastUpdate : option Z) (now : Z) : bool :=
  falsy lastUpdate ||
  match lastUpdate with
  | Some t => Z.leb ALERT_UPDATE_DEBOUNCE (now - t)
  | None => false
  end.

Section Platform.

(** The wall clock behind [Date.now()] and the number formatter. *)
Variable clock : nat -> Z.
Variable toFixed : R -> nat -> string.

Definition Date_now : M Z :=
  fun w => (clock (ticks w),
            {| activeAlerts := activeAlerts w;
               published := published w;
               console := console w;
               ticks := S (ticks w) |}).

(** ** The dispatcher *)

Definition emitAlert (vehicle type : string) (severity : Severity)
    (title description : string) : M unit :=
  let alertKey := getAlertKey vehicle type in
  now <- Date_now ;;
  lastUpdate <- activeAlerts_get alertKey ;;
  if shouldUpdate lastUpdate now then
    activeAlerts_set alertKey now ;;
    emit (create_toast alertKey severity title description) ;;
    if falsy lastUpdate
    then console_log ("Alert emitted: " ++ alertKey)
    else console_log ("Alert updated: " ++ alertKey)
  else ret tt.

Definition clearAlert (vehicle type : string) : M unit :=
  let alertKey := getAlertKey vehicle type in
  present <- activeAlerts_has alertKey ;;
  if present then
    activeAlerts_delete alertKey ;;
    emit (dismiss_toast alertKey) ;;
    console_log ("Alert cleared: " ++ alertKey)
  else ret tt.

(** ** Alert condition checkers *)

Definition checkSignalStrength (vehicle : string) (signalStrength : R)
  : M unit :=
  if Rlt_dec signalStrength (SIGNAL_STRENGTH ALERT_THRESHOLDS) then
    emitAlert vehicle "signal_strength" warning
      "Warning: Signal Integrity"
      ("Weak signal integrity/connection lost to " ++ vehicle ++ "!")
  else clearAlert vehicle "signal_strength".

Definition checkConnectionStatus (vehicle vehicleStatus : string) : M unit :=
  (if String.eqb vehicleStatus "Disconnected" then
     emitAlert vehicle "heartbeat_timeout" error
       "Error: Connection Failure"
       ("Unable to connect to " ++ vehicle)
   else if String.eqb vehicleStatus "Connected" then
     clearAlert vehicle "heartbeat_timeout"
   else ret tt) ;;
  if String.eqb vehicleStatus "Bad Connection" then
    emitAlert vehicle "signal_strength" warning
      "Warning: Signal Integrity"
      ("Weak signal integrity/connection lost to " ++ vehicle ++ "!")
  else ret tt.

Definition checkBatteryLevel (vehicle : string) (batteryLife : R) : M unit :=
  if Rlt_dec batteryLife (LOW_BATTERY ALERT_THRESHOLDS) then
    emitAlert vehicle "abnormal_status" error
      "Error: Abnormal Status"
      ("Abnormal " ++ vehicle ++ " status (low battery: "
         ++ toFixed batteryLife 1 ++ "%)!")
  else clearAlert vehicle "abnormal_status".

Definition checkGeoFenceStatus (vehicle vehicleStatus : string) : M unit :=
  if String.eqb vehicleStatus "Approaching restricted area" then
    emitAlert vehicle "geo_fence" warning
      "Warning: Keep-Out Zone"
      (vehicle ++ " approaching keep-out zone!")
  else if negb (String.eqb vehicleStatus "Approaching restricted area") then
    clearAlert vehicle "geo_fence"
  else ret tt.

Definition checkVehicleProximity (vehicle1 : string) (lat1 lon1 : R)
    (vehicle2 : string) (lat2 lon2 : R) : M unit :=
  let distance := calculateDistance lat1 lon1 lat2 lon2 in
  if Rlt_dec distance (PROXIMITY ALERT_THRESHOLDS) then
    emitAlert vehicle1 ("proximity_" ++ vehicle2) warning
      "Warning: Vehicle Proximity"
      (vehicle1 ++ " and " ++ vehicle2 ++ " are within "
         ++ toFixed distance 0 ++ " ft of each other!")
  else clearAlert vehicle1 ("proximity_" ++ vehicle2).

(** ** Main alert monitoring function *)

Definition vehicles : list string := ["ERU"; "MEA"; "MRA"].

(** The body of [vehicles.forEach]. *)
Definition checkVehicle (telemetryState : VehicleTelemetryData)
    (vehicle : string) : M unit :=
  match telemetry_get telemetryState vehicle with
  | None => ret tt
  | Some data =>
      checkSignalStrength vehicle (signal_strength data) ;;
      checkConnectionStatus vehicle (vehicle_status data) ;;
      checkBatteryLevel vehicle (battery_life data) ;;
      checkGeoFenceStatus vehicle (vehicle_status data)
  end.

(** One of the three guarded proximity blocks. *)
Definition checkPair (vehicle1 : string) (d1 : option VehicleData)
    (vehicle2 : string) (d2 : option VehicleData) : M unit :=
  match position_of d1, position_of d2 with
  | Some p1, Some p2 =>
      checkVehicleProximity
        vehicle1 (latitude p1) (longitude p1)
        vehicle2 (latitude p2) (longitude p2)
  | _, _ => ret tt
  end.

Definition checkAlerts (telemetryState : option VehicleTelemetryData)
  : M unit :=
  match telemetryState with
  | None => ret tt
  | Some ts =>
      forEach vehicles (checkVehicle ts) ;;
      checkPair "ERU" (ERU ts) "MEA" (MEA ts) ;;
      checkPair "ERU" (ERU ts) "MRA" (MRA ts) ;;
      checkPair "MEA" (MEA ts) "MRA" (MRA ts)
  end.

Definition getActiveAlerts : M (list string) :=
  fun w => (JsMap.keys (activeAlerts w), w).

(** [activeAlerts.forEach]: the callback never writes the map, so the
    entries are those at the time of the call. *)
Definition activeAlerts_entries : M (list (string * Z)) :=
  fun w => (activeAlerts w, w).

Definition clearAllAlerts : M unit :=
  entries <- activeAlerts_entries ;;
  forEach entries
    (fun entry => let (alertKey, timestamp) := entry in
                  emit (dismiss_toast alertKey)) ;;
  activeAlerts_clear ;;
  console_log "All alerts cleared".

End Platform.

(** * Vocabulary of the statements *)

(** [modifies m K]: running [m] changes the store at most at the keys [K]. *)
Definition modifies (m : M unit) (K : list string) : Prop :=
  forall (w : World) (k : string),
    ~ In k K ->
    JsMap.get (activeAlerts (exec m w)) k = JsMap.get (activeAlerts w) k.

(** The alert types of the single-vehicle checkers. *)
Definition vehicle_types : list string :=
  ["signal_strength"; "heartbeat_timeout"; "abnormal_status"; "geo_fence"].

(** The four keys the single-vehicle checkers of [vehicle] write. *)
Definition vehicle_keys (vehicle : string) : list string :=
  map (getAlertKey vehicle) vehicle_types.

(** The keys a pass can write. *)
Definition pass_keys : list string :=
  (vehicle_keys "ERU" ++ vehicle_keys "MEA" ++ vehicle_keys "MRA"
   ++ [getAlertKey "ERU" "proximity_MEA";
       getAlertKey "ERU" "proximity_MRA";
       getAlertKey "MEA" "proximity_MRA"])%list.

(** The proximity keys of the fixed direction. *)
Definition forward_proximity_keys : list string :=
  ["ERU_proximity_MEA"; "ERU_proximity_MRA"; "MEA_proximity_MRA"].

(** [preserves m]: running [m] keeps the store free of duplicate keys. *)
Definition preserves (m : M unit) : Prop :=
  forall w : World,
    JsMap.wf (activeAlerts w) -> JsMap.wf (activeAlerts (exec m w)).

(** A key is a proximity key when it is built from the type
    [proximity_<other>]. *)
Definition proximity_key (k : string) : Prop :=
  exists vehicle1 vehicle2 : string,
    k = getAlertKey vehicle1 ("proximity_" ++ vehicle2).

Fixpoint has_infix (p s : string) : bool :=
  String.prefix p s ||
  match s with
  | EmptyString => false
  | String _ s' => has_infix p s'
  end.

(** The haversine term [a] of [calculateDistance]. *)
Definition haversine_a (lat1 lon1 lat2 lon2 : R) : R :=
  let dLat := (((lat2 - lat1) * PI) / 180)%R in
  let dLon := (((lon2 - lon1) * PI) / 180)%R in
  (sin (dLat / 2) * sin (dLat / 2) +
   cos ((lat1 * PI) / 180) * cos ((lat2 * PI) / 180) *
     sin (dLon / 2) * sin (dLon / 2))%R.

(** ** The distance over an arbitrary arithmetic

    The expression of [calculateDistance] with the number type and its
    operations as parameters; [real_arithmetic] below is the instance
    [calculateDistance] itself uses. *)
Record Arithmetic : Type := mkArithmetic {
  num : Type;
  add : num -> num -> num;
  sub : num -> num -> num;
  mul : num -> num -> num;
  div : num -> num -> num;
  neg : num -> num;
  sin_ : num -> num;
  cos_ : num -> num;
  sqrt_ : num -> num;
  atan2_ : num -> num -> num;
  PI_ : num;
  lit : Z -> num
}.

Definition calculateDistance_in (A : Arithmetic)
    (lat1 lon1 lat2 lon2 : num A) : num A :=
  let R_ := lit A 3959 in
  let dLat := div A (mul A (sub A lat2 lat1) (PI_ A)) (lit A 180) in
  let dLon := div A (mul A (sub A lon2 lon1) (PI_ A)) (lit A 180) in
  let a :=
    add A
      (mul A (sin_ A (div A dLat (lit A 2))) (sin_ A (div A dLat (lit A 2))))
      (mul A
         (mul A
            (mul A (cos_ A (div A (mul A lat1 (PI_ A)) (lit A 180)))
                   (cos_ A (div A (mul A lat2 (PI_ A)) (lit A 180))))
            (sin_ A (div A dLon (lit A 2))))
         (sin_ A (div A dLon (lit A 2)))) in
  let c :=
    mul A (lit A 2) (atan2_ A (sqrt_ A a) (sqrt_ A (sub A (lit A 1) a))) in
  mul A (mul A R_ c) (lit A 5280).

(** Laws under which the expression does not see the order of its two
    points: a difference and its reverse are opposite or equal, products
    and quotients commute with the sign, and the sine is odd.  The real
    numbers have them. *)
Class SignSymmetric (A : Arithmetic) : Prop := {
  sub_swap : forall x y : num A,
    sub A y x = neg A (sub A x y) \/ sub A y x = sub A x y;
  mul_comm : forall x y : num A, mul A x y = mul A y x;
  mul_neg_l : forall x y : num A, mul A (neg A x) y = neg A (mul A x y);
  div_neg_l : forall x y : num A, div A (neg A x) y = neg A (div A x y);
  neg_involutive : forall x : num A, neg A (neg A x) = x;
  sin_odd : forall x : num A, sin_ A (neg A x) = neg A (sin_ A x)
}.

Definition real_arithmetic : Arithmetic :=
  {| num := R; add := Rplus; sub := Rminus; mul := Rmult; div := Rdiv;
     neg := Ropp; sin_ := sin; cos_ := cos; sqrt_ := sqrt;
     atan2_ := Math_atan2; PI_ := PI; lit := IZR |}.

(** The snapshot of the scenario. *)
Definition scenario : VehicleTelemetryData :=
  {| ERU := Some {| signal_strength := (-50)%R;
                    vehicle_status := "Connected";
                    battery_life := 15%R;
                    current_position :=
                      Some {| latitude := 0%R; longitude := 0%R |} |};
     MEA := Some {| signal_strength := (-50)%R;
                    vehicle_status := "Connected";
                    battery_life := 90%R;
                    current_position :=
                      Some {| latitude := 0%R; longitude := 0.001%R |} |};
     MRA := None |}.

(** The snapshot used to exhibit an active proximity alert: two vehicles
    at the same point. *)
Definition same_point : VehicleTelemetryData :=
  let data := {| signal_strength := (-50)%R;
                 vehicle_status := "Connected";
                 battery_life := 80%R;
                 current_position :=
                   Some {| latitude := 0%R; longitude := 0%R |} |} in
  {| ERU := Some data; MEA := Some data; MRA := None |}.

Section Reachable.

Variable clock : nat -> Z.
Variable toFixed : R -> nat -> string.

(** The worlds the exported functions produce from the freshly loaded
    module. *)
Inductive reachable : World -> Prop :=
| reachable_initial : reachable initial
| reachable_checkAlerts (w : World) (ts : option VehicleTelemetryData) :
    reachable w -> reachable (exec (checkAlerts clock toFixed ts) w)
| reachable_clearAllAlerts (w : World) :
    reachable w -> reachable (exec clearAllAlerts w).

End Reachable.

(** * Vocabulary of the further properties *)

(** A vehicle identifier without the separator of [getAlertKey]. *)
Fixpoint no_underscore (s : string) : bool :=
  match s with
  | EmptyString => true
  | String c s' => negb (Ascii.eqb c "_") && no_underscore s'
  end.

(** [invariant P m]: running [m] keeps [P]. *)
Definition invariant (P : World -> Prop) (m : M unit) : Prop :=
  forall w : World, P w -> P (exec m w).

(** The alerts a pass can dispatch: vehicle, alert type, and the severity
    and title the checker gives it. *)
Definition vehicle_alerts (vehicle : string)
  : list (string * string * Severity * string) :=
  [(vehicle, "signal_strength", warning, "Warning: Signal Integrity");
   (vehicle, "heartbeat_timeout", error, "Error: Connection Failure");
   (vehicle, "abnormal_status", error, "Error: Abnormal Status");
   (vehicle, "geo_fence", warning, "Warning: Keep-Out Zone")].

Definition pass_alerts : list (string * string * Severity * string) :=
  (vehicle_alerts "ERU" ++ vehicle_alerts "MEA" ++ vehicle_alerts "MRA"
   ++ [("ERU", "proximity_MEA", warning, "Warning: Vehicle Proximity");
       ("ERU", "proximity_MRA", warning, "Warning: Vehicle Proximity");
       ("MEA", "proximity_MRA", warning, "Warning: Vehicle Proximity")])%list.

(** Key, severity and title of each alert of [pass_alerts]. *)
Definition alert_table : list (string * Severity * string) :=
  map (fun a : string * string * Severity * string =>
         let '(vehicle, type, severity, title) := a in
         (getAlertKey vehicle type, severity, title))
      pass_alerts.

(** An event a pass may publish: a create carries the severity and title
    the table gives its key, a dismiss names a key of the table. *)
Definition event_ok (e : Event) : Prop :=
  match e with
  | create_toast id type title _ => In (id, type, title) alert_table
  | dismiss_toast id => In id pass_keys
  end.

(** The events published so far and the active keys are those of the
    table. *)
Definition tabled (w : World) : Prop :=
  Forall event_ok (published w)
  /\ forall k : string, In k (JsMap.keys (activeAlerts w)) -> In k pass_keys.

(** [emits_at_most n m]: running [m] only appends to the trace, at most
    [n] events. *)
Definition emits_at_most (n : nat) (m : M unit) : Prop :=
  forall w : World,
    exists evs : list Event,
      published (exec m w) = (published w ++ evs)%list
      /\ (List.length evs <= n)%nat.

(** The three pairs the proximity check visits. *)
Definition vehicle_pairs : list (string * string) :=
  [("ERU", "MEA"); ("ERU", "MRA"); ("MEA", "MRA")].

(** The key an event is about. *)
Definition event_id (e : Event) : string :=
  match e with
  | create_toast id _ _ _ => id
  | dismiss_toast id => id
  end.

(** [announced trace k]: the last event of the trace about the key [k]
    is a create. *)
Definition announced (trace : list Event) (k : string) : bool :=
  fold_left
    (fun (b : bool) (e : Event) =>
       if String.eqb (event_id e) k then is_create e else b)
    trace false.

Section Stamps.

Variable clock : nat -> Z.

(** Every stored timestamp is a reading the clock gave earlier. *)
Definition stamped (w : World) : Prop :=
  forall (k : string) (t : Z),
    JsMap.get (activeAlerts w) k = Some t ->
    exists n : nat, (n < ticks w)%nat /\ t = clock n.

(** No stored timestamp is 0 or as old as the debounce window, now and
    later. *)
Definition quiet (w : World) : Prop :=
  forall (k : string) (t : Z),
    JsMap.get (activeAlerts w) k = Some t ->
    t <> 0%Z
    /\ forall n : nat,
         (ticks w <= n)%nat -> (clock n - t < ALERT_UPDATE_DEBOUNCE)%Z.

End Stamps.

(** [same w w']: [w'] is [w] but for clock reads. *)
Definition same (w w' : World) : Prop :=
  activeAlerts w' = activeAlerts w
  /\ published w' = published w
  /\ console w' = console w
  /\ (ticks w <= ticks w')%nat.

(** * Properties *)

(** ** The map *)
Module JsMapFacts.
Import JsMap.

Lemma get_set_eq (m : t) (k : string) (v : Z) : get (set m k v) k = Some v.
Proof.
  induction m as [|[k' v'] m IH]; simpl.
  - now rewrite String.eqb_refl.
  - destruct (String.eqb k' k) eqn:E; simpl; rewrite E; auto.
Qed.

Lemma get_set_neq (m : t) (k k' : string) (v : Z) :
  k <> k' -> get (set m k v) k' = get m k'.
Proof.
  intros Hne. induction m as [|[k0 v0] m IH]; simpl.
  - destruct (String.eqb_spec k k'); congruence.
  - destruct (String.eqb_spec k0 k) as [->|]; simpl.
    + destruct (String.eqb_spec k k'); congruence.
    + now rewrite IH.
Qed.

Lemma get_delete_eq (m : t) (k : string) : get (delete m k) k = None.
Proof.
  induction m as [|[k' v'] m IH]; simpl; auto.
  destruct (String.eqb k' k) eqn:E; simpl; try rewrite E; auto.
Qed.

Lemma get_delete_neq (m : t) (k k' : string) :
  k <> k' -> get (delete m k) k' = get m k'.
Proof.
  intros Hne. induction m as [|[k0 v0] m IH]; simpl; auto.
  destruct (String.eqb_spec k0 k) as [->|]; simpl.
  - destruct (String.eqb_spec k k'); congruence.
  - now rewrite IH.
Qed.

Lemma delete_absent (m : t) (k : string) : get m k = None -> delete m k = m.
Proof.
  induction m as [|[k' v'] m IH]; simpl; auto.
  destruct (String.eqb k' k); [discriminate|].
  intros H. now rewrite IH.
Qed.

Lemma get_keys (m : t) (k : string) : get m k <> None <-> In k (keys m).
Proof.
  induction m as [|[k' v'] m IH]; simpl.
  - split; [congruence | tauto].
  - destruct (String.eqb_spec k' k) as [->|Hne].
    + split; [auto | congruence].
    + rewrite IH. split; [auto | intros [?|?]; [contradiction | auto]].
Qed.

Lemma has_keys (m : t) (k : string) : has m k = true <-> In k (keys m).
Proof.
  rewrite <- get_keys. unfold has.
  destruct (get m k); split; congruence.
Qed.

Lemma has_false_get (m : t) (k : string) : has m k = false <-> get m k = None.
Proof. unfold has. destruct (get m k); split; congruence. Qed.

Lemma keys_set (m : t) (k : string) (v : Z) (x : string) :
  In x (keys (set m k v)) <-> x = k \/ In x (keys m).
Proof.
  induction m as [|[k' v'] m IH]; simpl.
  - intuition.
  - destruct (String.eqb_spec k' k) as [->|Hne]; simpl.
    + intuition.
    + rewrite IH. intuition.
Qed.

Lemma keys_delete (m : t) (k x : string) :
  In x (keys (delete m k)) <-> x <> k /\ In x (keys m).
Proof.
  induction m as [|[k' v'] m IH]; simpl.
  - intuition.
  - destruct (String.eqb_spec k' k) as [->|Hne]; simpl.
    + rewrite IH. intuition congruence.
    + rewrite IH. intuition congruence.
Qed.

Lemma wf_empty : wf empty.
Proof. constructor. Qed.

Lemma wf_set (m : t) (k : string) (v : Z) : wf m -> wf (set m k v).
Proof.
  unfold wf. induction m as [|[k' v'] m IH]; simpl; intros H.
  - constructor; [simpl; tauto | constructor].
  - inversion H as [|? ? Hnin Hnd]; subst.
    destruct (String.eqb_spec k' k) as [->|Hne]; simpl.
    + now constructor.
    + constructor; [|auto].
      fold (keys (set m k v)). rewrite keys_set.
      intros [->|Hin]; [congruence | contradiction].
Qed.

Lemma wf_delete (m : t) (k : string) : wf m -> wf (delete m k).
Proof.
  unfold wf. induction m as [|[k' v'] m IH]; simpl; intros H; auto.
  inversion H as [|? ? Hnin Hnd]; subst.
  destruct (String.eqb_spec k' k) as [->|Hne]; simpl; auto.
  constructor; [|auto].
  fold (keys (delete m k)). rewrite keys_delete. tauto.
Qed.

End JsMapFacts.

(** ** Alert keys *)

Lemma append_inv_head (p a b : string) : p ++ a = p ++ b -> a = b.
Proof.
  induction p as [|c p IH]; simpl; intros H; [assumption|].
  injection H as H. auto.
Qed.

Lemma getAlertKey_inj_type (vehicle a b : string) :
  getAlertKey vehicle a = getAlertKey vehicle b -> a = b.
Proof.
  unfold getAlertKey. intros H.
  apply append_inv_head in H. now apply (append_inv_head "_") in H.
Qed.

Lemma prefix_append (p s : string) : String.prefix p (p ++ s) = true.
Proof.
  induction p as [|c p IH]; simpl.
  - now destruct s.
  - destruct (Ascii.ascii_dec c c); [assumption | contradiction].
Qed.

Lemma has_infix_append (a p b : string) : has_infix p (a ++ p ++ b) = true.
Proof.
  induction a as [|c a IH].
  - change ("" ++ p ++ b) with (p ++ b).
    pose proof (prefix_append p b) as H.
    destruct (p ++ b); unfold has_infix; fold has_infix; rewrite H; reflexivity.
  - change ((String c a) ++ p ++ b) with (String c (a ++ p ++ b)).
    simpl. rewrite IH. apply orb_true_r.
Qed.

Lemma proximity_key_infix (k : string) :
  proximity_key k -> has_infix "_proximity_" k = true.
Proof.
  intros (v1 & v2 & ->). unfold getAlertKey.
  change ("_" ++ "proximity_" ++ v2) with ("_proximity_" ++ v2).
  apply has_infix_append.
Qed.

(** ** Sequencing *)

Lemma exec_ret (w : World) : exec (ret tt) w = w.
Proof. reflexivity. Qed.

Lemma exec_seq {A : Type} (m1 : M A) (m2 : M unit) (w : World) :
  exec (m1 ;; m2) w = exec m2 (exec m1 w).
Proof. unfold exec, bind. now destruct (m1 w). Qed.

Lemma exec_forEach_cons {A : Type} (x : A) (l : list A) (f : A -> M unit)
    (w : World) :
  exec (forEach (x :: l) f) w = exec (forEach l f) (exec (f x) w).
Proof. simpl. apply exec_seq. Qed.

(** ** The dispatcher *)

Lemma modifies_ret : modifies (ret tt) [].
Proof. intros w k _. reflexivity. Qed.

Lemma modifies_seq (m1 m2 : M unit) (K1 K2 : list string) :
  modifies m1 K1 -> modifies m2 K2 -> modifies (m1 ;; m2) (K1 ++ K2)%list.
Proof.
  intros H1 H2 w k Hk. rewrite exec_seq, H2, H1; auto;
    intros Hin; apply Hk, in_or_app; auto.
Qed.

Lemma modifies_incl (m : M unit) (K K' : list string) :
  incl K K' -> modifies m K -> modifies m K'.
Proof. intros Hi Hm w k Hk. apply Hm. intros Hin. apply Hk, Hi, Hin. Qed.

Lemma modifies_has (m : M unit) (K : list string) (w : World) (k : string) :
  modifies m K -> ~ In k K ->
  JsMap.has (activeAlerts (exec m w)) k = JsMap.has (activeAlerts w) k.
Proof. intros Hm Hk. unfold JsMap.has. now rewrite Hm. Qed.

(** What a step can add to the key set. *)
Lemma modifies_keys (m : M unit) (K : list string) (w : World) (k : string) :
  modifies m K ->
  In k (JsMap.keys (activeAlerts (exec m w))) ->
  In k K \/ In k (JsMap.keys (activeAlerts w)).
Proof.
  intros Hm Hin. destruct (in_dec string_dec k K) as [|Hk]; [auto|].
  right. apply JsMapFacts.get_keys. rewrite <- (Hm w k Hk).
  now apply JsMapFacts.get_keys.
Qed.

Section DispatcherFacts.

Variable clock : nat -> Z.

Lemma emitAlert_exec (vehicle type : string) (severity : Severity)
    (title description : string) (w : World) :
  exec (emitAlert clock vehicle type severity title description) w =
  let alertKey := getAlertKey vehicle type in
  let now := clock (ticks w) in
  let lastUpdate := JsMap.get (activeAlerts w) alertKey in
  if shouldUpdate lastUpdate now then
    {| activeAlerts := JsMap.set (activeAlerts w) alertKey now;
       published :=
         published w ++ [create_toast alertKey severity title description];
       console :=
         console w ++ [(if falsy lastUpdate then "Alert emitted: "
                        else "Alert updated: ") ++ alertKey];
       ticks := S (ticks w) |}
  else
    {| activeAlerts := activeAlerts w;
       published := published w;
       console := console w;
       ticks := S (ticks w) |}.
Proof.
  unfold emitAlert, exec, bind, Date_now, activeAlerts_get; simpl.
  destruct (shouldUpdate _ _); [|reflexivity].
  destruct (falsy _); reflexivity.
Qed.

Lemma clearAlert_exec (vehicle type : string) (w : World) :
  exec (clearAlert vehicle type) w =
  let alertKey := getAlertKey vehicle type in
  if JsMap.has (activeAlerts w) alertKey then
    {| activeAlerts := JsMap.delete (activeAlerts w) alertKey;
       published := published w ++ [dismiss_toast alertKey];
       console := console w ++ ["Alert cleared: " ++ alertKey];
       ticks := ticks w |}
  else w.
Proof.
  unfold clearAlert, exec, bind, activeAlerts_has; simpl.
  destruct (JsMap.has _ _); reflexivity.
Qed.

(** A debounced call finds a truthy timestamp, so the key is active
    whichever branch [emitAlert] takes. *)
Lemma emitAlert_has (vehicle type : string) (severity : Severity)
    (title description : string) (w : World) :
  JsMap.has
    (activeAlerts (exec (emitAlert clock vehicle type severity title description) w))
    (getAlertKey vehicle type) = true.
Proof.
  rewrite emitAlert_exec; cbv zeta.
  destruct (shouldUpdate _ _) eqn:E; simpl.
  - unfold JsMap.has. now rewrite JsMapFacts.get_set_eq.
  - unfold shouldUpdate, falsy in E. unfold JsMap.has.
    destruct (JsMap.get _ _); [reflexivity | discriminate].
Qed.

Lemma modifies_emitAlert (vehicle type : string) (severity : Severity)
    (title description : string) :
  modifies (emitAlert clock vehicle type severity title description)
    [getAlertKey vehicle type].
Proof.
  intros w k Hk. rewrite emitAlert_exec; cbv zeta.
  destruct (shouldUpdate _ _); simpl; [|reflexivity].
  apply JsMapFacts.get_set_neq. intros <-. apply Hk. now left.
Qed.

Lemma clearAlert_has (vehicle type : string) (w : World) :
  JsMap.has (activeAlerts (exec (clearAlert vehicle type) w))
    (getAlertKey vehicle type) = false.
Proof.
  rewrite clearAlert_exec; cbv zeta.
  destruct (JsMap.has (activeAlerts w) (getAlertKey vehicle type)) eqn:E;
    [simpl | exact E].
  unfold JsMap.has. now rewrite JsMapFacts.get_delete_eq.
Qed.

Lemma modifies_clearAlert (vehicle type : string) :
  modifies (clearAlert vehicle type) [getAlertKey vehicle type].
Proof.
  intros w k Hk. rewrite clearAlert_exec; cbv zeta.
  destruct (JsMap.has _ _); simpl; [|reflexivity].
  apply JsMapFacts.get_delete_neq. intros <-. apply Hk. now left.
Qed.

(** The two branches of [emitAlert]. *)
Lemma emitAlert_due (vehicle type : string) (severity : Severity)
    (title description : string) (w : World) :
  let alertKey := getAlertKey vehicle type in
  let w' := exec (emitAlert clock vehicle type severity title description) w in
  shouldUpdate (JsMap.get (activeAlerts w) alertKey) (clock (ticks w)) = true ->
  published w'
    = (published w ++ [create_toast alertKey severity title description])%list
  /\ JsMap.get (activeAlerts w') alertKey = Some (clock (ticks w))
  /\ ticks w' = S (ticks w).
Proof.
  intros alertKey w' H. unfold w'. rewrite emitAlert_exec; cbv zeta.
  fold alertKey. rewrite H. simpl.
  now rewrite JsMapFacts.get_set_eq.
Qed.

Lemma emitAlert_debounced (vehicle type : string) (severity : Severity)
    (title description : string) (w : World) :
  let alertKey := getAlertKey vehicle type in
  let w' := exec (emitAlert clock vehicle type severity title description) w in
  shouldUpdate (JsMap.get (activeAlerts w) alertKey) (clock (ticks w)) = false ->
  published w' = published w
  /\ activeAlerts w' = activeAlerts w
  /\ ticks w' = S (ticks w).
Proof.
  intros alertKey w' H. unfold w'. rewrite emitAlert_exec; cbv zeta.
  fold alertKey. rewrite H. simpl. auto.
Qed.

Lemma clearAlert_absent (vehicle type : string) (w : World) :
  JsMap.get (activeAlerts w) (getAlertKey vehicle type) = None ->
  clearAlert vehicle type w = (tt, w).
Proof.
  intros H. unfold clearAlert, bind, activeAlerts_has, JsMap.has.
  cbv zeta. now rewrite H.
Qed.

End DispatcherFacts.

(** ** The checkers *)

Ltac key_neq :=
  let H := fresh in
  intros H;
  first [ discriminate H
        | apply getAlertKey_inj_type in H; discriminate H
        | unfold getAlertKey in H; simpl in H; discriminate H ].

Ltac notin :=
  unfold vehicle_keys, vehicle_types; simpl;
  repeat match goal with
         | |- ~ (_ \/ _) => apply Classical_Prop.and_not_or; split
         | |- ~ False => exact (fun f => f)
         | |- _ <> _ => key_neq
         | |- ~ (_ = _) => key_neq
         end.

Section CheckerFacts.

Variable clock : nat -> Z.
Variable toFixed : R -> nat -> string.

Lemma modifies_checkSignalStrength (vehicle : string) (x : R) :
  modifies (checkSignalStrength clock vehicle x)
    [getAlertKey vehicle "signal_strength"].
Proof.
  unfold checkSignalStrength. destruct (Rlt_dec _ _).
  - apply modifies_emitAlert.
  - apply modifies_clearAlert.
Qed.

Lemma modifies_checkConnectionStatus (vehicle vehicleStatus : string) :
  modifies (checkConnectionStatus clock vehicle vehicleStatus)
    [getAlertKey vehicle "heartbeat_timeout";
     getAlertKey vehicle "signal_strength"].
Proof.
  unfold checkConnectionStatus.
  apply (modifies_seq _ _ [_] [_]).
  - destruct (String.eqb _ _); [apply modifies_emitAlert|].
    destruct (String.eqb _ _); [apply modifies_clearAlert|].
    eapply modifies_incl; [|apply modifies_ret]. intros ? [].
  - destruct (String.eqb _ _); [apply modifies_emitAlert|].
    eapply modifies_incl; [|apply modifies_ret]. intros ? [].
Qed.

Lemma modifies_checkBatteryLevel (vehicle : string) (x : R) :
  modifies (checkBatteryLevel clock toFixed vehicle x)
    [getAlertKey vehicle "abnormal_status"].
Proof.
  unfold checkBatteryLevel. destruct (Rlt_dec _ _).
  - apply modifies_emitAlert.
  - apply modifies_clearAlert.
Qed.

Lemma modifies_checkGeoFenceStatus (vehicle vehicleStatus : string) :
  modifies (checkGeoFenceStatus clock vehicle vehicleStatus)
    [getAlertKey vehicle "geo_fence"].
Proof.
  unfold checkGeoFenceStatus.
  destruct (String.eqb _ _); simpl.
  - apply modifies_emitAlert.
  - apply modifies_clearAlert.
Qed.

Lemma modifies_checkVehicleProximity (vehicle1 : string) (lat1 lon1 : R)
    (vehicle2 : string) (lat2 lon2 : R) :
  modifies
    (checkVehicleProximity clock toFixed vehicle1 lat1 lon1 vehicle2 lat2 lon2)
    [getAlertKey vehicle1 ("proximity_" ++ vehicle2)].
Proof.
  unfold checkVehicleProximity; cbv zeta. destruct (Rlt_dec _ _).
  - apply modifies_emitAlert.
  - apply modifies_clearAlert.
Qed.

Lemma modifies_checkVehicle (ts : VehicleTelemetryData) (vehicle : string) :
  modifies (checkVehicle clock toFixed ts vehicle) (vehicle_keys vehicle).
Proof.
  unfold checkVehicle. destruct (telemetry_get ts vehicle) as [data|].
  - eapply modifies_incl;
      [|apply modifies_seq;
         [apply modifies_checkSignalStrength
         |apply modifies_seq;
           [apply modifies_checkConnectionStatus
           |apply modifies_seq;
             [apply modifies_checkBatteryLevel
             |apply modifies_checkGeoFenceStatus]]]].
    unfold vehicle_keys, vehicle_types. intros k Hk. simpl in Hk |- *.
    tauto.
  - eapply modifies_incl; [|apply modifies_ret]. intros ? [].
Qed.

Lemma modifies_checkPair (vehicle1 : string) (d1 : option VehicleData)
    (vehicle2 : string) (d2 : option VehicleData) :
  modifies (checkPair clock toFixed vehicle1 d1 vehicle2 d2)
    [getAlertKey vehicle1 ("proximity_" ++ vehicle2)].
Proof.
  unfold checkPair.
  destruct (position_of d1); [destruct (position_of d2)|];
    try apply modifies_checkVehicleProximity;
    (eapply modifies_incl; [|apply modifies_ret]; intros ? []).
Qed.

(** One pass, step by step. *)
Lemma exec_checkAlerts (ts : VehicleTelemetryData) (w : World) :
  exec (checkAlerts clock toFixed (Some ts)) w =
  exec (checkPair clock toFixed "MEA" (MEA ts) "MRA" (MRA ts))
    (exec (checkPair clock toFixed "ERU" (ERU ts) "MRA" (MRA ts))
      (exec (checkPair clock toFixed "ERU" (ERU ts) "MEA" (MEA ts))
        (exec (checkVehicle clock toFixed ts "MRA")
          (exec (checkVehicle clock toFixed ts "MEA")
            (exec (checkVehicle clock toFixed ts "ERU") w))))).
Proof.
  unfold checkAlerts, vehicles. rewrite !exec_seq.
  rewrite !exec_forEach_cons. reflexivity.
Qed.

End CheckerFacts.

(** ** What one vehicle's block decides *)

Section VehicleFacts.

Variable clock : nat -> Z.
Variable toFixed : R -> nat -> string.

Lemma exec_checkVehicle (ts : VehicleTelemetryData) (vehicle : string)
    (data : VehicleData) (w : World) :
  telemetry_get ts vehicle = Some data ->
  exec (checkVehicle clock toFixed ts vehicle) w =
  exec (checkGeoFenceStatus clock vehicle (vehicle_status data))
    (exec (checkBatteryLevel clock toFixed vehicle (battery_life data))
      (exec (checkConnectionStatus clock vehicle (vehicle_status data))
        (exec (checkSignalStrength clock vehicle (signal_strength data)) w))).
Proof.
  intros H. unfold checkVehicle. rewrite H. now rewrite !exec_seq.
Qed.

Lemma checkSignalStrength_has (vehicle : string) (x : R) (w : World) :
  JsMap.has (activeAlerts (exec (checkSignalStrength clock vehicle x) w))
    (getAlertKey vehicle "signal_strength")
  = if Rlt_dec x (SIGNAL_STRENGTH ALERT_THRESHOLDS) then true else false.
Proof.
  unfold checkSignalStrength. destruct (Rlt_dec _ _).
  - apply emitAlert_has.
  - apply clearAlert_has.
Qed.

Lemma checkConnectionStatus_signal (vehicle status : string) (w : World) :
  JsMap.has (activeAlerts (exec (checkConnectionStatus clock vehicle status) w))
    (getAlertKey vehicle "signal_strength")
  = if String.eqb status "Bad Connection" then true
    else JsMap.has (activeAlerts w) (getAlertKey vehicle "signal_strength").
Proof.
  unfold checkConnectionStatus. rewrite exec_seq.
  destruct (String.eqb status "Bad Connection"); [apply emitAlert_has|].
  rewrite exec_ret.
  destruct (String.eqb status "Disconnected").
  - rewrite (modifies_has _ _ _ _ (modifies_emitAlert _ _ _ _ _ _)) by notin.
    reflexivity.
  - destruct (String.eqb status "Connected"); [|reflexivity].
    rewrite (modifies_has _ _ _ _ (modifies_clearAlert _ _)) by notin.
    reflexivity.
Qed.

Lemma checkConnectionStatus_heartbeat (vehicle status : string) (w : World) :
  JsMap.has (activeAlerts (exec (checkConnectionStatus clock vehicle status) w))
    (getAlertKey vehicle "heartbeat_timeout")
  = if String.eqb status "Disconnected" then true
    else if String.eqb status "Connected" then false
    else JsMap.has (activeAlerts w) (getAlertKey vehicle "heartbeat_timeout").
Proof.
  unfold checkConnectionStatus. rewrite exec_seq.
  match goal with
  | |- JsMap.has (activeAlerts (exec ?m2 ?w1)) ?k = _ =>
      assert (Hm : modifies m2 [getAlertKey vehicle "signal_strength"])
  end.
  { destruct (String.eqb status "Bad Connection");
      [apply modifies_emitAlert|].
    eapply modifies_incl; [|apply modifies_ret]. intros ? []. }
  rewrite (modifies_has _ _ _ _ Hm) by notin. clear Hm.
  destruct (String.eqb status "Disconnected"); [apply emitAlert_has|].
  destruct (String.eqb status "Connected"); [apply clearAlert_has|].
  reflexivity.
Qed.

Lemma checkBatteryLevel_has (vehicle : string) (x : R) (w : World) :
  JsMap.has (activeAlerts (exec (checkBatteryLevel clock toFixed vehicle x) w))
    (getAlertKey vehicle "abnormal_status")
  = if Rlt_dec x (LOW_BATTERY ALERT_THRESHOLDS) then true else false.
Proof.
  unfold checkBatteryLevel. destruct (Rlt_dec _ _).
  - apply emitAlert_has.
  - apply clearAlert_has.
Qed.

Lemma checkGeoFenceStatus_has (vehicle status : string) (w : World) :
  JsMap.has (activeAlerts (exec (checkGeoFenceStatus clock vehicle status) w))
    (getAlertKey vehicle "geo_fence")
  = String.eqb status "Approaching restricted area".
Proof.
  unfold checkGeoFenceStatus.
  destruct (String.eqb status "Approaching restricted area"); simpl.
  - apply emitAlert_has.
  - apply clearAlert_has.
Qed.

Ltac outer_step :=
  match goal with
  | |- context [JsMap.has (activeAlerts
                  (exec (checkGeoFenceStatus ?c ?v ?s) ?w)) ?k] =>
      rewrite (modifies_has _ _ w k (modifies_checkGeoFenceStatus c v s))
        by notin
  | |- context [JsMap.has (activeAlerts
                  (exec (checkBatteryLevel ?c ?f ?v ?x) ?w)) ?k] =>
      rewrite (modifies_has _ _ w k (modifies_checkBatteryLevel c f v x))
        by notin
  | |- context [JsMap.has (activeAlerts
                  (exec (checkConnectionStatus ?c ?v ?s) ?w)) ?k] =>
      rewrite (modifies_has _ _ w k (modifies_checkConnectionStatus c v s))
        by notin
  | |- context [JsMap.has (activeAlerts
                  (exec (checkSignalStrength ?c ?v ?x) ?w)) ?k] =>
      rewrite (modifies_has _ _ w k (modifies_checkSignalStrength c v x))
        by notin
  end.

Lemma checkVehicle_signal_strength (ts : VehicleTelemetryData)
    (vehicle : string) (data : VehicleData) (w : World) :
  telemetry_get ts vehicle = Some data ->
  JsMap.has (activeAlerts (exec (checkVehicle clock toFixed ts vehicle) w))
    (getAlertKey vehicle "signal_strength")
  = if String.eqb (vehicle_status data) "Bad Connection" then true
    else if Rlt_dec (signal_strength data) (SIGNAL_STRENGTH ALERT_THRESHOLDS)
         then true else false.
Proof.
  intros H. rewrite (exec_checkVehicle _ _ _ _ H).
  do 2 outer_step.
  rewrite checkConnectionStatus_signal, checkSignalStrength_has.
  reflexivity.
Qed.

Lemma checkVehicle_heartbeat_timeout (ts : VehicleTelemetryData)
    (vehicle : string) (data : VehicleData) (w : World) :
  telemetry_get ts vehicle = Some data ->
  JsMap.has (activeAlerts (exec (checkVehicle clock toFixed ts vehicle) w))
    (getAlertKey vehicle "heartbeat_timeout")
  = if String.eqb (vehicle_status data) "Disconnected" then true
    else if String.eqb (vehicle_status data) "Connected" then false
    else JsMap.has (activeAlerts w) (getAlertKey vehicle "heartbeat_timeout").
Proof.
  intros H. rewrite (exec_checkVehicle _ _ _ _ H).
  do 2 outer_step.
  rewrite checkConnectionStatus_heartbeat.
  now outer_step.
Qed.

Lemma checkVehicle_abnormal_status (ts : VehicleTelemetryData)
    (vehicle : string) (data : VehicleData) (w : World) :
  telemetry_get ts vehicle = Some data ->
  JsMap.has (activeAlerts (exec (checkVehicle clock toFixed ts vehicle) w))
    (getAlertKey vehicle "abnormal_status")
  = if Rlt_dec (battery_life data) (LOW_BATTERY ALERT_THRESHOLDS)
    then true else false.
Proof.
  intros H. rewrite (exec_checkVehicle _ _ _ _ H).
  outer_step. apply checkBatteryLevel_has.
Qed.

Lemma checkVehicle_geo_fence (ts : VehicleTelemetryData)
    (vehicle : string) (data : VehicleData) (w : World) :
  telemetry_get ts vehicle = Some data ->
  JsMap.has (activeAlerts (exec (checkVehicle clock toFixed ts vehicle) w))
    (getAlertKey vehicle "geo_fence")
  = String.eqb (vehicle_status data) "Approaching restricted area".
Proof.
  intros H. rewrite (exec_checkVehicle _ _ _ _ H).
  apply checkGeoFenceStatus_has.
Qed.

End VehicleFacts.

(** ** What one pass decides *)

Section PassFacts.

Variable clock : nat -> Z.
Variable toFixed : R -> nat -> string.

Ltac pass_step :=
  match goal with
  | |- context [JsMap.has (activeAlerts
                  (exec (checkPair ?c ?f ?a ?d1 ?b ?d2) ?w)) ?k] =>
      rewrite (modifies_has _ _ w k (modifies_checkPair c f a d1 b d2))
        by notin
  | |- context [JsMap.has (activeAlerts
                  (exec (checkVehicle ?c ?f ?ts ?v) ?w)) ?k] =>
      rewrite (modifies_has _ _ w k (modifies_checkVehicle c f ts v))
        by notin
  end.

(** The verdict on a single-vehicle key is the one its own block reaches:
    the blocks of the other vehicles and the proximity checks leave the key
    alone. *)
Lemma checkAlerts_vehicle_key (ts : VehicleTelemetryData)
    (vehicle type : string) (w : World) :
  In vehicle vehicles -> In type vehicle_types ->
  exists w0 : World,
    JsMap.has (activeAlerts (exec (checkAlerts clock toFixed (Some ts)) w))
      (getAlertKey vehicle type)
    = JsMap.has (activeAlerts (exec (checkVehicle clock toFixed ts vehicle) w0))
        (getAlertKey vehicle type)
    /\ JsMap.has (activeAlerts w0) (getAlertKey vehicle type)
       = JsMap.has (activeAlerts w) (getAlertKey vehicle type).
Proof.
  intros Hv Hty. rewrite exec_checkAlerts.
  destruct Hv as [<-|[<-|[<-|[]]]];
    destruct Hty as [<-|[<-|[<-|[<-|[]]]]];
    repeat pass_step;
    eexists; (split; [reflexivity|]);
    repeat pass_step; reflexivity.
Qed.

End PassFacts.

(** ** The haversine distance *)

Section Haversine.

Local Open Scope R_scope.

Lemma calculateDistance_a (lat1 lon1 lat2 lon2 : R) :
  calculateDistance lat1 lon1 lat2 lon2 =
  3959 *
    (2 * Math_atan2 (sqrt (haversine_a lat1 lon1 lat2 lon2))
           (sqrt (1 - haversine_a lat1 lon1 lat2 lon2))) * 5280.
Proof. reflexivity. Qed.

Lemma Math_atan2_sin_cos (x : R) :
  - (PI / 2) < x < PI / 2 -> Math_atan2 (sin x) (cos x) = x.
Proof.
  intros [Hlo Hhi]. unfold Math_atan2.
  pose proof (cos_gt_0 x Hlo Hhi) as Hc.
  destruct (Rlt_dec 0 (cos x)); [|contradiction].
  change (sin x / cos x) with (tan x). now apply atan_tan.
Qed.

(** Two points on the equator: the distance is the arc between the
    longitudes. *)
Lemma calculateDistance_equator (lon1 lon2 : R) :
  0 <= lon2 - lon1 < 180 ->
  calculateDistance 0 lon1 0 lon2
  = 3959 * (((lon2 - lon1) * PI) / 180) * 5280.
Proof.
  intros [Hlo Hhi]. rewrite calculateDistance_a.
  set (h := (lon2 - lon1) * PI / 180 / 2).
  pose proof PI_RGT_0 as Hpi.
  assert (Hh0 : 0 <= h).
  { unfold h. assert (0 <= (lon2 - lon1) * PI)
      by (apply Rmult_le_pos; lra). lra. }
  assert (Hh1 : h < PI / 2).
  { unfold h. assert ((lon2 - lon1) * PI < 180 * PI)
      by (apply Rmult_lt_compat_r; lra). lra. }
  assert (Ha : haversine_a 0 lon1 0 lon2 = sin h * sin h).
  { unfold haversine_a; cbv zeta. fold h.
    replace ((0 - 0) * PI / 180 / 2) with 0 by lra.
    replace (0 * PI / 180) with 0 by lra.
    rewrite sin_0, cos_0. ring. }
  assert (Hb : 1 - haversine_a 0 lon1 0 lon2 = cos h * cos h).
  { rewrite Ha. pose proof (sin2_cos2 h) as H. unfold Rsqr in H. lra. }
  rewrite Hb, Ha.
  rewrite sqrt_square by (apply sin_ge_0; lra).
  rewrite sqrt_square by (apply Rlt_le, cos_gt_0; lra).
  rewrite Math_atan2_sin_cos by lra.
  unfold h. lra.
Qed.

Lemma calculateDistance_same_point :
  calculateDistance 0 0 0 0 = 0.
Proof. rewrite calculateDistance_equator; lra. Qed.

(** The pair of the end-to-end scenario is 116.13 * PI ft apart, about
    364.8 ft; the bounds are those that 3 < PI <= 4 gives. *)
Lemma calculateDistance_scenario :
  348 < calculateDistance 0 0 0 0.001 < 465.
Proof.
  rewrite calculateDistance_equator by lra.
  pose proof PI2_3_2 as Hlo. pose proof PI_4 as Hhi. lra.
Qed.

End Haversine.

(** ** The trace of clear-all *)

Lemma exec_forEach_dismiss (entries : list (string * Z)) (w : World) :
  exec (forEach entries
          (fun entry => let (alertKey, timestamp) := entry in
                        emit (dismiss_toast alertKey))) w
  = {| activeAlerts := activeAlerts w;
       published :=
         (published w ++ map dismiss_toast (JsMap.keys entries))%list;
       console := console w;
       ticks := ticks w |}.
Proof.
  revert w. induction entries as [|[k v] entries IH]; intros w.
  - simpl. rewrite exec_ret, app_nil_r. now destruct w.
  - rewrite exec_forEach_cons, IH. simpl. now rewrite <- app_assoc.
Qed.

Lemma NoDup_map_dismiss (l : list string) :
  NoDup l -> NoDup (map dismiss_toast l).
Proof.
  induction 1 as [|k l Hnin Hnd IH]; simpl; constructor; [|assumption].
  rewrite in_map_iff. intros (k' & E & Hin). injection E as ->. auto.
Qed.

Lemma clearAllAlerts_exec (w : World) :
  exec clearAllAlerts w
  = {| activeAlerts := JsMap.empty;
       published :=
         (published w
            ++ map dismiss_toast (JsMap.keys (activeAlerts w)))%list;
       console := (console w ++ ["All alerts cleared"])%list;
       ticks := ticks w |}.
Proof.
  unfold clearAllAlerts.
  change (exec (bind activeAlerts_entries ?k) w)
    with (exec (k (activeAlerts w)) w).
  cbv beta. rewrite !exec_seq, exec_forEach_dismiss. reflexivity.
Qed.

(** ** One pass over a present snapshot *)

Lemma telemetry_get_in (ts : VehicleTelemetryData) (vehicle : string)
    (data : VehicleData) :
  telemetry_get ts vehicle = Some data -> In vehicle vehicles.
Proof.
  unfold telemetry_get, vehicles.
  destruct (String.eqb_spec vehicle "ERU") as [->|]; [simpl; auto|].
  destruct (String.eqb_spec vehicle "MEA") as [->|]; [simpl; auto|].
  destruct (String.eqb_spec vehicle "MRA") as [->|]; [simpl; auto|].
  discriminate.
Qed.

Lemma modifies_get (m : M unit) (K : list string) (w : World) (k : string) :
  modifies m K -> ~ In k K ->
  JsMap.get (activeAlerts (exec m w)) k = JsMap.get (activeAlerts w) k.
Proof. intros Hm Hk. now apply Hm. Qed.

Section PassVerdicts.

Variable clock : nat -> Z.
Variable toFixed : R -> nat -> string.

(** After a pass the four single-vehicle alerts of a present vehicle stand
    as its own record says. *)
Lemma checkAlerts_verdicts (ts : VehicleTelemetryData) (vehicle : string)
    (data : VehicleData) (w : World) :
  telemetry_get ts vehicle = Some data ->
  let w' := exec (checkAlerts clock toFixed (Some ts)) w in
  (JsMap.has (activeAlerts w') (getAlertKey vehicle "signal_strength") = true
     <-> (signal_strength data < -70)%R
         \/ vehicle_status data = "Bad Connection")
  /\ (vehicle_status data = "Disconnected" ->
      JsMap.has (activeAlerts w') (getAlertKey vehicle "heartbeat_timeout")
        = true)
  /\ (vehicle_status data = "Connected" ->
      JsMap.has (activeAlerts w') (getAlertKey vehicle "heartbeat_timeout")
        = false)
  /\ (JsMap.has (activeAlerts w') (getAlertKey vehicle "abnormal_status") = true
     <-> (battery_life data < 20)%R)
  /\ (JsMap.has (activeAlerts w') (getAlertKey vehicle "geo_fence") = true
     <-> vehicle_status data = "Approaching restricted area").
Proof.
  intros Hget w'. pose proof (telemetry_get_in _ _ _ Hget) as Hv.
  assert (Hkey : forall type, In type vehicle_types ->
            exists w0,
              JsMap.has (activeAlerts w') (getAlertKey vehicle type)
              = JsMap.has
                  (activeAlerts (exec (checkVehicle clock toFixed ts vehicle) w0))
                  (getAlertKey vehicle type)).
  { intros type Hty.
    destruct (checkAlerts_vehicle_key clock toFixed ts vehicle type w Hv Hty)
      as (w0 & E & _).
    now exists w0. }
  repeat split.
  - destruct (Hkey "signal_strength") as (w0 & ->); [simpl; tauto|].
    rewrite (checkVehicle_signal_strength _ _ _ _ _ _ Hget).
    destruct (String.eqb_spec (vehicle_status data) "Bad Connection");
      [tauto|].
    unfold ALERT_THRESHOLDS; simpl.
    destruct (Rlt_dec (signal_strength data) (-70)); [tauto | discriminate].
  - destruct (Hkey "signal_strength") as (w0 & ->); [simpl; tauto|].
    rewrite (checkVehicle_signal_strength _ _ _ _ _ _ Hget).
    intros [Hlt | ->]; [|reflexivity].
    destruct (String.eqb _ _); [reflexivity|].
    unfold ALERT_THRESHOLDS; simpl.
    destruct (Rlt_dec (signal_strength data) (-70));
      [reflexivity | contradiction].
  - intros Hs.
    destruct (Hkey "heartbeat_timeout") as (w0 & ->); [simpl; tauto|].
    rewrite (checkVehicle_heartbeat_timeout _ _ _ _ _ _ Hget), Hs.
    reflexivity.
  - intros Hs.
    destruct (Hkey "heartbeat_timeout") as (w0 & ->); [simpl; tauto|].
    rewrite (checkVehicle_heartbeat_timeout _ _ _ _ _ _ Hget), Hs.
    reflexivity.
  - destruct (Hkey "abnormal_status") as (w0 & ->); [simpl; tauto|].
    rewrite (checkVehicle_abnormal_status _ _ _ _ _ _ Hget).
    unfold ALERT_THRESHOLDS; simpl.
    destruct (Rlt_dec (battery_life data) 20); [tauto | discriminate].
  - destruct (Hkey "abnormal_status") as (w0 & ->); [simpl; tauto|].
    rewrite (checkVehicle_abnormal_status _ _ _ _ _ _ Hget).
    unfold ALERT_THRESHOLDS; simpl.
    destruct (Rlt_dec (battery_life data) 20); [tauto | contradiction].
  - destruct (Hkey "geo_fence") as (w0 & ->); [simpl; tauto|].
    rewrite (checkVehicle_geo_fence _ _ _ _ _ _ Hget).
    apply String.eqb_eq.
  - destruct (Hkey "geo_fence") as (w0 & ->); [simpl; tauto|].
    rewrite (checkVehicle_geo_fence _ _ _ _ _ _ Hget).
    apply String.eqb_eq.
Qed.

Lemma checkPair_absent_l (vehicle1 vehicle2 : string)
    (d2 : option VehicleData) :
  checkPair clock toFixed vehicle1 None vehicle2 d2 = ret tt.
Proof. reflexivity. Qed.

Lemma checkPair_absent_r (vehicle1 vehicle2 : string)
    (d1 : option VehicleData) :
  checkPair clock toFixed vehicle1 d1 vehicle2 None = ret tt.
Proof. unfold checkPair. now destruct (position_of d1). Qed.

Lemma checkVehicle_absent (ts : VehicleTelemetryData) (vehicle : string) :
  telemetry_get ts vehicle = None ->
  checkVehicle clock toFixed ts vehicle = ret tt.
Proof. intros H. unfold checkVehicle. now rewrite H. Qed.

Ltac get_step :=
  match goal with
  | |- context [JsMap.get (activeAlerts
                  (exec (checkPair ?c ?f ?a ?d1 ?b ?d2) ?w0)) ?k] =>
      rewrite (modifies_get _ _ w0 k (modifies_checkPair c f a d1 b d2))
        by notin
  | |- context [JsMap.get (activeAlerts
                  (exec (checkVehicle ?c ?f ?ts ?v) ?w0)) ?k] =>
      rewrite (modifies_get _ _ w0 k (modifies_checkVehicle c f ts v))
        by notin
  end.

(** A pass leaves alone every key of a vehicle whose record is absent,
    its proximity keys included. *)
Lemma checkAlerts_absent_frame (ts : VehicleTelemetryData)
    (vehicle type : string) (w : World) :
  In vehicle vehicles ->
  telemetry_get ts vehicle = None ->
  JsMap.get (activeAlerts (exec (checkAlerts clock toFixed (Some ts)) w))
    (getAlertKey vehicle type)
  = JsMap.get (activeAlerts w) (getAlertKey vehicle type).
Proof.
  intros Hv Habs. rewrite exec_checkAlerts.
  pose proof (checkVehicle_absent ts vehicle Habs) as Hcv.
  destruct Hv as [<-|[<-|[<-|[]]]];
    rewrite Hcv, exec_ret;
    unfold telemetry_get in Habs; simpl in Habs; rewrite Habs;
    rewrite ?checkPair_absent_l, ?checkPair_absent_r, ?exec_ret;
    repeat get_step; reflexivity.
Qed.

(** The same for the proximity keys of the other vehicles that name the
    absent one. *)
Lemma checkAlerts_absent_frame_proximity (ts : VehicleTelemetryData)
    (vehicle other : string) (w : World) :
  In vehicle vehicles ->
  In other vehicles ->
  telemetry_get ts vehicle = None ->
  JsMap.get (activeAlerts (exec (checkAlerts clock toFixed (Some ts)) w))
    (getAlertKey other ("proximity_" ++ vehicle))
  = JsMap.get (activeAlerts w) (getAlertKey other ("proximity_" ++ vehicle)).
Proof.
  intros Hv Ho Habs. rewrite exec_checkAlerts.
  pose proof (checkVehicle_absent ts vehicle Habs) as Hcv.
  destruct Hv as [<-|[<-|[<-|[]]]];
    rewrite Hcv, exec_ret;
    unfold telemetry_get in Habs; simpl in Habs; rewrite Habs;
    rewrite ?checkPair_absent_l, ?checkPair_absent_r, ?exec_ret;
    destruct Ho as [<-|[<-|[<-|[]]]];
    repeat get_step; reflexivity.
Qed.

End PassVerdicts.

(** ** Sign symmetry of the distance *)

Section SignSymmetry.

Context {A : Arithmetic} `{HA : SignSymmetric A}.

Lemma neg_mul_neg (x y : num A) :
  mul A (neg A x) (neg A y) = mul A x y.
Proof.
  rewrite mul_neg_l, (mul_comm x (neg A y)), mul_neg_l, neg_involutive.
  apply mul_comm.
Qed.

(** The sine of half the angle of a difference, squared or paired with
    itself in a product, does not see the order of the difference. *)
Lemma half_angle_swap (x y : num A) :
  let h := fun d : num A =>
    sin_ A (div A (div A (mul A d (PI_ A)) (lit A 180)) (lit A 2)) in
  h (sub A y x) = neg A (h (sub A x y)) \/ h (sub A y x) = h (sub A x y).
Proof.
  intros h. unfold h.
  destruct (sub_swap x y) as [E|E]; rewrite E; [left | now right].
  now rewrite mul_neg_l, !div_neg_l, sin_odd.
Qed.

Lemma calculateDistance_in_symmetric (lat1 lon1 lat2 lon2 : num A) :
  calculateDistance_in A lat1 lon1 lat2 lon2
  = calculateDistance_in A lat2 lon2 lat1 lon1.
Proof.
  unfold calculateDistance_in; cbv zeta.
  set (cc := mul A (cos_ A _) (cos_ A _)).
  set (cc' := mul A (cos_ A _) (cos_ A _)).
  assert (Ecc : cc' = cc) by apply mul_comm. rewrite Ecc. clear Ecc cc'.
  destruct (half_angle_swap lat2 lat1) as [E1|E1];
    destruct (half_angle_swap lon2 lon1) as [E2|E2];
    cbv beta in E1, E2; rewrite E1, E2;
    rewrite ?neg_mul_neg; try reflexivity.
  - now rewrite (mul_comm cc (neg A _)), mul_neg_l, neg_mul_neg,
      (mul_comm _ cc).
  - now rewrite (mul_comm cc (neg A _)), mul_neg_l, neg_mul_neg,
      (mul_comm _ cc).
Qed.

End SignSymmetry.

#[local] Instance real_sign_symmetric : SignSymmetric real_arithmetic.
Proof.
  constructor; simpl; intros.
  - left. ring.
  - ring.
  - ring.
  - unfold Rdiv. ring.
  - ring.
  - apply sin_neg.
Qed.

Lemma calculateDistance_in_real (lat1 lon1 lat2 lon2 : R) :
  calculateDistance_in real_arithmetic lat1 lon1 lat2 lon2
  = calculateDistance lat1 lon1 lat2 lon2.
Proof. reflexivity. Qed.

(** ** Evaluating the checkers *)

Section Evaluation.

Variable clock : nat -> Z.
Variable toFixed : R -> nat -> string.

Lemma checkSignalStrength_ge (vehicle : string) (x : R) :
  (-70 <= x)%R ->
  checkSignalStrength clock vehicle x = clearAlert vehicle "signal_strength".
Proof.
  intros H. unfold checkSignalStrength, ALERT_THRESHOLDS; simpl.
  destruct (Rlt_dec x (-70)); [lra | reflexivity].
Qed.

Lemma checkBatteryLevel_lt (vehicle : string) (x : R) :
  (x < 20)%R ->
  checkBatteryLevel clock toFixed vehicle x
  = emitAlert clock vehicle "abnormal_status" error
      "Error: Abnormal Status"
      ("Abnormal " ++ vehicle ++ " status (low battery: "
         ++ toFixed x 1 ++ "%)!").
Proof.
  intros H. unfold checkBatteryLevel, ALERT_THRESHOLDS; simpl.
  destruct (Rlt_dec x 20); [reflexivity | contradiction].
Qed.

Lemma checkBatteryLevel_ge (vehicle : string) (x : R) :
  (20 <= x)%R ->
  checkBatteryLevel clock toFixed vehicle x
  = clearAlert vehicle "abnormal_status".
Proof.
  intros H. unfold checkBatteryLevel, ALERT_THRESHOLDS; simpl.
  destruct (Rlt_dec x 20); [lra | reflexivity].
Qed.

Lemma checkVehicleProximity_far (vehicle1 : string) (lat1 lon1 : R)
    (vehicle2 : string) (lat2 lon2 : R) :
  (100 <= calculateDistance lat1 lon1 lat2 lon2)%R ->
  checkVehicleProximity clock toFixed vehicle1 lat1 lon1 vehicle2 lat2 lon2
  = clearAlert vehicle1 ("proximity_" ++ vehicle2).
Proof.
  intros H. unfold checkVehicleProximity, ALERT_THRESHOLDS; simpl.
  destruct (Rlt_dec _ 100); [lra | reflexivity].
Qed.

Lemma checkVehicleProximity_near (vehicle1 : string) (lat1 lon1 : R)
    (vehicle2 : string) (lat2 lon2 : R) :
  (calculateDistance lat1 lon1 lat2 lon2 < 100)%R ->
  checkVehicleProximity clock toFixed vehicle1 lat1 lon1 vehicle2 lat2 lon2
  = emitAlert clock vehicle1 ("proximity_" ++ vehicle2) warning
      "Warning: Vehicle Proximity"
      (vehicle1 ++ " and " ++ vehicle2 ++ " are within "
         ++ toFixed (calculateDistance lat1 lon1 lat2 lon2) 0
         ++ " ft of each other!").
Proof.
  intros H. unfold checkVehicleProximity, ALERT_THRESHOLDS; simpl.
  destruct (Rlt_dec _ 100); [reflexivity | contradiction].
Qed.

End Evaluation.

(** ** Reachable stores *)

Create HintDb preserves.

Section Reachability.

Variable clock : nat -> Z.
Variable toFixed : R -> nat -> string.

Lemma preserves_ret : preserves (ret tt).
Proof. intros w H. exact H. Qed.

Lemma preserves_seq (m1 m2 : M unit) :
  preserves m1 -> preserves m2 -> preserves (m1 ;; m2).
Proof. intros H1 H2 w H. rewrite exec_seq. auto. Qed.

Lemma preserves_emitAlert (vehicle type : string) (severity : Severity)
    (title description : string) :
  preserves (emitAlert clock vehicle type severity title description).
Proof.
  intros w H. rewrite emitAlert_exec; cbv zeta.
  destruct (shouldUpdate _ _); simpl; [now apply JsMapFacts.wf_set | exact H].
Qed.

Lemma preserves_clearAlert (vehicle type : string) :
  preserves (clearAlert vehicle type).
Proof.
  intros w H. rewrite clearAlert_exec; cbv zeta.
  destruct (JsMap.has _ _); simpl; [now apply JsMapFacts.wf_delete | exact H].
Qed.

#[local] Hint Resolve preserves_ret preserves_seq preserves_emitAlert
  preserves_clearAlert : preserves.

Lemma preserves_checkVehicle (ts : VehicleTelemetryData) (vehicle : string) :
  preserves (checkVehicle clock toFixed ts vehicle).
Proof.
  unfold checkVehicle. destruct (telemetry_get ts vehicle); [|auto with preserves].
  unfold checkSignalStrength, checkConnectionStatus, checkBatteryLevel,
    checkGeoFenceStatus.
  repeat match goal with
         | |- context [Rlt_dec ?a ?b] => destruct (Rlt_dec a b)
         | |- context [String.eqb ?a ?b] => destruct (String.eqb a b)
         end; simpl; auto 10 with preserves.
Qed.

Lemma preserves_checkPair (vehicle1 : string) (d1 : option VehicleData)
    (vehicle2 : string) (d2 : option VehicleData) :
  preserves (checkPair clock toFixed vehicle1 d1 vehicle2 d2).
Proof.
  unfold checkPair.
  destruct (position_of d1); [destruct (position_of d2)|];
    auto with preserves.
  unfold checkVehicleProximity; cbv zeta.
  destruct (Rlt_dec _ _); auto with preserves.
Qed.

Lemma preserves_checkAlerts (ts : option VehicleTelemetryData) :
  preserves (checkAlerts clock toFixed ts).
Proof.
  destruct ts as [ts|]; [|apply preserves_ret].
  unfold checkAlerts, vehicles, forEach.
  repeat apply preserves_seq;
    auto using preserves_checkVehicle, preserves_checkPair, preserves_ret.
Qed.

(** Every reachable store satisfies the representation invariant. *)
Lemma reachable_wf (w : World) :
  reachable clock toFixed w -> JsMap.wf (activeAlerts w).
Proof.
  induction 1 as [|w ts _ IH|w _ IH].
  - apply JsMapFacts.wf_empty.
  - now apply preserves_checkAlerts.
  - rewrite clearAllAlerts_exec. apply JsMapFacts.wf_empty.
Qed.

Ltac modifies_steps :=
  first [ apply modifies_checkVehicle
        | apply modifies_checkPair
        | apply modifies_ret
        | apply modifies_seq; [modifies_steps | modifies_steps] ].

Lemma modifies_checkAlerts (ts : option VehicleTelemetryData) :
  modifies (checkAlerts clock toFixed ts) pass_keys.
Proof.
  destruct ts as [ts|].
  - unfold checkAlerts, vehicles, forEach.
    eapply modifies_incl; [|modifies_steps].
    unfold pass_keys. intros k Hk.
    repeat (apply in_app_or in Hk; destruct Hk as [Hk|Hk]);
      repeat (apply in_or_app; first [left; assumption | right]);
      simpl in *; tauto.
  - eapply modifies_incl; [|apply modifies_ret]. intros ? [].
Qed.

(** Only the fifteen keys of [pass_keys] are ever active. *)
Lemma reachable_keys (w : World) (k : string) :
  reachable clock toFixed w ->
  In k (JsMap.keys (activeAlerts w)) -> In k pass_keys.
Proof.
  intros Hr. revert k. induction Hr as [|w ts _ IH|w _ IH]; intros k Hin.
  - destruct Hin.
  - destruct (modifies_keys _ _ _ _ (modifies_checkAlerts ts) Hin); auto.
  - rewrite clearAllAlerts_exec in Hin. destruct Hin.
Qed.

End Reachability.

Lemma same_point_pass (clock : nat -> Z) (toFixed : R -> nat -> string) :
  activeAlerts (exec (checkAlerts clock toFixed (Some same_point)) initial)
  = [("ERU_proximity_MEA", clock 0)].
Proof.
  pose proof calculateDistance_same_point as Hnear.
  rewrite exec_checkAlerts.
  rewrite (checkVehicle_absent clock toFixed same_point "MRA" eq_refl).
  rewrite (exec_checkVehicle clock toFixed same_point "ERU" _ _ eq_refl).
  rewrite (exec_checkVehicle clock toFixed same_point "MEA" _ _ eq_refl).
  unfold checkPair, same_point, position_of.
  cbv [signal_strength vehicle_status battery_life current_position
       latitude longitude ERU MEA MRA].
  rewrite !checkSignalStrength_ge by lra.
  rewrite !checkBatteryLevel_ge by lra.
  rewrite checkVehicleProximity_near by lra.
  reflexivity.
Qed.

(** * The claims *)

(** ** Debounce *)

(** C1. For a fixed alert key whose next publish is due (the key is not
    active, or 3000 ms have passed since it was last published), with a
    clock that is past the epoch at the first call: two calls of
    [emitAlert] within the debounce window of 3000 ms publish exactly one
    create notification (the first call's), and a third call, made once
    3000 ms have elapsed since the first publish, publishes a second one. *)
Theorem emitAlert_debounce (clock : nat -> Z) (vehicle type : string)
    (sev1 sev2 sev3 : Severity)
    (title1 desc1 title2 desc2 title3 desc3 : string) (w : World) :
  let alertKey := getAlertKey vehicle type in
  let lastUpdate := JsMap.get (activeAlerts w) alertKey in
  let t1 := clock (ticks w) in
  let t2 := clock (S (ticks w)) in
  let t3 := clock (S (S (ticks w))) in
  let w1 := exec (emitAlert clock vehicle type sev1 title1 desc1) w in
  let w2 := exec (emitAlert clock vehicle type sev2 title2 desc2) w1 in
  let w3 := exec (emitAlert clock vehicle type sev3 title3 desc3) w2 in
  (lastUpdate = None
   \/ exists t0 : Z,
        lastUpdate = Some t0 /\ (ALERT_UPDATE_DEBOUNCE <= t1 - t0)%Z) ->
  (t1 <> 0)%Z ->
  (t2 - t1 < ALERT_UPDATE_DEBOUNCE)%Z ->
  (ALERT_UPDATE_DEBOUNCE <= t3 - t1)%Z ->
  published w2
    = (published w ++ [create_toast alertKey sev1 title1 desc1])%list
  /\ published w3
    = (published w ++ [create_toast alertKey sev1 title1 desc1;
                       create_toast alertKey sev3 title3 desc3])%list.
Proof.
  intros alertKey lastUpdate t1 t2 t3 w1 w2 w3 Hdue Ht1 Ht2 Ht3.
  assert (Hfirst : shouldUpdate lastUpdate t1 = true).
  { destruct Hdue as [-> | (t0 & -> & Ht0)]; [reflexivity|].
    unfold shouldUpdate. apply orb_true_intro. right. now apply Z.leb_le. }
  destruct (emitAlert_due clock vehicle type sev1 title1 desc1 w Hfirst)
    as (P1 & G1 & T1).
  fold alertKey w1 t1 in P1, G1, T1.
  assert (Hno : shouldUpdate (JsMap.get (activeAlerts w1) alertKey)
                  (clock (ticks w1)) = false).
  { rewrite G1, T1. fold t2. unfold shouldUpdate, falsy.
    apply orb_false_intro; [now apply Z.eqb_neq | now apply Z.leb_gt]. }
  destruct (emitAlert_debounced clock vehicle type sev2 title2 desc2 w1 Hno)
    as (P2 & S2 & T2).
  fold w2 in P2, S2, T2.
  split; [now rewrite P2, P1|].
  assert (Hyes : shouldUpdate (JsMap.get (activeAlerts w2) alertKey)
                   (clock (ticks w2)) = true).
  { rewrite S2, G1, T2, T1. fold t3. unfold shouldUpdate.
    apply orb_true_intro. right. now apply Z.leb_le. }
  destruct (emitAlert_due clock vehicle type sev3 title3 desc3 w2 Hyes)
    as (P3 & _ & _).
  fold alertKey w3 in P3.
  rewrite P3, P2, P1. now rewrite <- app_assoc.
Qed.

Lemma emitAlert_debounce_witness :
  let clock := fun n : nat =>
    match n with 0 => 1000%Z | 1 => 2500%Z | _ => 4000%Z end in
  let w1 := exec (emitAlert clock "ERU" "signal_strength" warning "t" "d")
              initial in
  let w2 := exec (emitAlert clock "ERU" "signal_strength" warning "t" "d")
              w1 in
  let w3 := exec (emitAlert clock "ERU" "signal_strength" warning "t" "d")
              w2 in
  published w2 = [create_toast "ERU_signal_strength" warning "t" "d"]
  /\ published w3 = [create_toast "ERU_signal_strength" warning "t" "d";
                     create_toast "ERU_signal_strength" warning "t" "d"].
Proof.
  intros clock.
  apply (emitAlert_debounce clock "ERU" "signal_strength"
           warning warning warning "t" "d" "t" "d" "t" "d" initial).
  - left; reflexivity.
  - simpl; lia.
  - unfold ALERT_UPDATE_DEBOUNCE; simpl; lia.
  - unfold ALERT_UPDATE_DEBOUNCE; simpl; lia.
Defined.

(** The clock hypothesis of [emitAlert_debounce] is needed: [!lastUpdate]
    also holds of the timestamp 0, so an alert first published at the epoch
    is published again by the next call, whatever the elapsed time. *)
Remark emitAlert_epoch_not_debounced :
  let clock := fun n : nat => Z.of_nat n in
  let w1 := exec (emitAlert clock "ERU" "signal_strength" warning "t" "d")
              initial in
  let w2 := exec (emitAlert clock "ERU" "signal_strength" warning "t" "d")
              w1 in
  published w2 = [create_toast "ERU_signal_strength" warning "t" "d";
                  create_toast "ERU_signal_strength" warning "t" "d"].
Proof. reflexivity. Qed.

(** ** Two checkers, one alert type *)

(** C2. A present vehicle reports "Bad Connection" with a signal strength
    of at least -70: whatever the store held before, the pass ends with the
    vehicle's signal_strength key active.  The signal-strength checker runs
    first and clears the key; the connection-status checker runs second and
    emits the same alert type. *)
Theorem bad_connection_signal_alert_wins (clock : nat -> Z)
    (toFixed : R -> nat -> string) (ts : VehicleTelemetryData)
    (vehicle : string) (data : VehicleData) (w : World) :
  telemetry_get ts vehicle = Some data ->
  vehicle_status data = "Bad Connection" ->
  (signal_strength data >= -70)%R ->
  let alertKey := getAlertKey vehicle "signal_strength" in
  In alertKey
     (fst (getActiveAlerts (exec (checkAlerts clock toFixed (Some ts)) w)))
  /\ forall w0 : World,
       let w1 :=
         exec (checkSignalStrength clock vehicle (signal_strength data)) w0 in
       let w2 :=
         exec (checkConnectionStatus clock vehicle (vehicle_status data)) w1 in
       JsMap.has (activeAlerts w1) alertKey = false
       /\ JsMap.has (activeAlerts w2) alertKey = true.
Proof.
  intros Hget Hbad Hsig alertKey. split.
  - apply JsMapFacts.has_keys.
    apply (checkAlerts_verdicts clock toFixed ts vehicle data w Hget). auto.
  - intros w0 w1 w2. split.
    + unfold w1. rewrite checkSignalStrength_has.
      unfold ALERT_THRESHOLDS; simpl.
      destruct (Rlt_dec (signal_strength data) (-70)); [lra | reflexivity].
    + unfold w2. rewrite checkConnectionStatus_signal, Hbad. reflexivity.
Qed.

Lemma bad_connection_signal_alert_wins_witness :
  let clock := fun n : nat => (1000 + Z.of_nat n)%Z in
  let toFixed := fun (_ : R) (_ : nat) => "0" in
  let data := {| signal_strength := (-50)%R;
                 vehicle_status := "Bad Connection";
                 battery_life := 80%R;
                 current_position := None |} in
  let ts := {| ERU := None; MEA := Some data; MRA := None |} in
  In "MEA_signal_strength"
     (fst (getActiveAlerts (exec (checkAlerts clock toFixed (Some ts)) initial))).
Proof.
  intros clock toFixed data ts.
  assert (Hsig : (signal_strength data >= -70)%R)
    by (unfold data, signal_strength; lra).
  exact (proj1 (bad_connection_signal_alert_wins clock toFixed ts "MEA" data
                  initial eq_refl eq_refl Hsig)).
Defined.

(** ** Absent snapshot *)

(** C3. [checkAlerts] on an absent snapshot returns at once: the world is the
    same, so the dedup store and the set of active alerts are unchanged and
    nothing is published. *)
Theorem checkAlerts_null_noop (clock : nat -> Z) (toFixed : R -> nat -> string)
    (w : World) :
  let w' := exec (checkAlerts clock toFixed None) w in
  w' = w
  /\ activeAlerts w' = activeAlerts w
  /\ fst (getActiveAlerts w') = fst (getActiveAlerts w)
  /\ published w' = published w.
Proof. repeat split. Qed.

(** ** The signal-strength threshold *)

(** C4. The signal-strength checker compares strictly: at exactly -70 it
    takes the clear branch, so the alert ends inactive and no create
    notification is published for it; at every value strictly below -70 it
    takes the emit branch with the warning severity, and the alert ends
    active. *)
Theorem checkSignalStrength_strict (clock : nat -> Z) (vehicle : string) :
  let alertKey := getAlertKey vehicle "signal_strength" in
  (checkSignalStrength clock vehicle (-70)
     = clearAlert vehicle "signal_strength"
   /\ forall w : World,
        JsMap.has (activeAlerts (exec (checkSignalStrength clock vehicle (-70)) w))
          alertKey = false
        /\ (JsMap.has (activeAlerts w) alertKey = false ->
            published (exec (checkSignalStrength clock vehicle (-70)) w)
              = published w))
  /\ forall x : R, (x < -70)%R ->
       checkSignalStrength clock vehicle x
         = emitAlert clock vehicle "signal_strength" warning
             "Warning: Signal Integrity"
             ("Weak signal integrity/connection lost to " ++ vehicle ++ "!")
       /\ forall w : World,
            JsMap.has (activeAlerts (exec (checkSignalStrength clock vehicle x) w))
              alertKey = true
            /\ (JsMap.has (activeAlerts w) alertKey = false ->
                published (exec (checkSignalStrength clock vehicle x) w)
                  = (published w ++
                     [create_toast alertKey warning
                        "Warning: Signal Integrity"
                        ("Weak signal integrity/connection lost to "
                           ++ vehicle ++ "!")%string])%list).
Proof.
  intros alertKey.
  assert (Heq : checkSignalStrength clock vehicle (-70)
                = clearAlert vehicle "signal_strength").
  { unfold checkSignalStrength, ALERT_THRESHOLDS; simpl.
    destruct (Rlt_dec (-70) (-70)); [lra | reflexivity]. }
  split; [split; [exact Heq|] |].
  - intros w. rewrite Heq. split; [apply clearAlert_has|].
    intros Hoff. rewrite clearAlert_exec; cbv zeta.
    fold alertKey. now rewrite Hoff.
  - intros x Hx.
    assert (Hlt : checkSignalStrength clock vehicle x
                  = emitAlert clock vehicle "signal_strength" warning
                      "Warning: Signal Integrity"
                      ("Weak signal integrity/connection lost to "
                         ++ vehicle ++ "!")).
    { unfold checkSignalStrength, ALERT_THRESHOLDS; simpl.
      destruct (Rlt_dec x (-70)); [reflexivity | contradiction]. }
    split; [exact Hlt|].
    intros w. rewrite Hlt. split; [apply emitAlert_has|].
    intros Hoff. apply JsMapFacts.has_false_get in Hoff.
    rewrite emitAlert_exec; cbv zeta. fold alertKey. now rewrite Hoff.
Qed.

Lemma checkSignalStrength_strict_witness :
  let clock := fun _ : nat => 1000%Z in
  published (exec (checkSignalStrength clock "ERU" (-70)) initial) = []
  /\ published (exec (checkSignalStrength clock "ERU" (-70.1)) initial)
     = [create_toast "ERU_signal_strength" warning
          "Warning: Signal Integrity"
          "Weak signal integrity/connection lost to ERU!"].
Proof.
  intros clock.
  destruct (checkSignalStrength_strict clock "ERU") as [[_ Hat] Hbelow].
  split.
  - apply (proj2 (Hat initial)). reflexivity.
  - assert (Hx : (-70.1 < -70)%R) by lra.
    apply (proj2 (proj2 (Hbelow (-70.1)%R Hx) initial)). reflexivity.
Defined.

(** ** Clearing an absent key *)

(** C5. [clearAlert] on a key that is not in the dedup store returns
    normally and leaves the world as it is: no notification, no log line,
    same store; so clearing again changes nothing either. *)
Theorem clearAlert_absent_noop (vehicle type : string) (w : World) :
  JsMap.get (activeAlerts w) (getAlertKey vehicle type) = None ->
  clearAlert vehicle type w = (tt, w)
  /\ published (exec (clearAlert vehicle type) w) = published w
  /\ activeAlerts (exec (clearAlert vehicle type) w) = activeAlerts w
  /\ exec (clearAlert vehicle type) (exec (clearAlert vehicle type) w) = w.
Proof.
  intros H. pose proof (clearAlert_absent vehicle type w H) as E.
  unfold exec. rewrite E. simpl. rewrite E. auto.
Qed.

Lemma clearAlert_absent_noop_witness :
  let w := {| activeAlerts := [("MEA_geo_fence", 5000%Z)];
              published := [create_toast "MEA_geo_fence" warning "t" "d"];
              console := [];
              ticks := 1 |} in
  clearAlert "ERU" "geo_fence" w = (tt, w)
  /\ published (exec (clearAlert "ERU" "geo_fence") w) = published w
  /\ activeAlerts (exec (clearAlert "ERU" "geo_fence") w) = activeAlerts w
  /\ exec (clearAlert "ERU" "geo_fence") (exec (clearAlert "ERU" "geo_fence") w)
     = w.
Proof.
  intros w. apply (clearAlert_absent_noop "ERU" "geo_fence" w). reflexivity.
Defined.

(** ** Clear-all *)

(** C6. From a store in which every key occurs once, [clearAllAlerts]
    publishes, after what was published before, the dismiss notifications of
    the active keys in the order of the store: every active key is
    dismissed exactly once, no other key is, no create notification is
    published, and [getActiveAlerts] is empty afterwards. *)
Theorem clearAllAlerts_dismisses_each (w : World) :
  JsMap.wf (activeAlerts w) ->
  let w' := exec clearAllAlerts w in
  let dismissed := map dismiss_toast (fst (getActiveAlerts w)) in
  published w' = (published w ++ dismissed)%list
  /\ NoDup dismissed
  /\ (forall k : string,
        In (dismiss_toast k) dismissed <-> In k (fst (getActiveAlerts w)))
  /\ (forall e : Event, In e dismissed -> is_create e = false)
  /\ fst (getActiveAlerts w') = [].
Proof.
  intros Hwf w' dismissed. unfold w'. rewrite clearAllAlerts_exec.
  unfold dismissed, getActiveAlerts; simpl.
  split; [reflexivity|]. split; [|split; [|split; [|reflexivity]]].
  - now apply NoDup_map_dismiss.
  - intros k. rewrite in_map_iff. split.
    + intros (k' & E & Hin). injection E as ->. exact Hin.
    + intros Hin. now exists k.
  - intros e Hin. apply in_map_iff in Hin as (k & <- & _). reflexivity.
Qed.

Lemma clearAllAlerts_dismisses_each_witness :
  let w := {| activeAlerts :=
                [("ERU_abnormal_status", 1000%Z); ("MEA_geo_fence", 1200%Z)];
              published := [];
              console := [];
              ticks := 2 |} in
  published (exec clearAllAlerts w)
    = [dismiss_toast "ERU_abnormal_status"; dismiss_toast "MEA_geo_fence"]
  /\ fst (getActiveAlerts (exec clearAllAlerts w)) = [].
Proof.
  intros w.
  assert (Hwf : JsMap.wf (activeAlerts w)).
  { unfold JsMap.wf; simpl.
    repeat constructor; simpl; intuition discriminate. }
  destruct (clearAllAlerts_dismisses_each w Hwf) as (Hp & _ & _ & _ & Hk).
  split; [exact Hp | exact Hk].
Defined.

(** ** The end-to-end scenario *)

(** C7. From an empty dedup store, one pass on the scenario snapshot
    publishes exactly one notification, the error-severity create for
    ERU_abnormal_status, which becomes the only active key.  The two
    vehicles are more than 100 ft apart, so the proximity check takes its
    clear branch and publishes nothing. *)
Theorem scenario_single_publish (clock : nat -> Z)
    (toFixed : R -> nat -> string)
    (pub : list Event) (con : list string) (n : nat) :
  exec (checkAlerts clock toFixed (Some scenario))
    {| activeAlerts := JsMap.empty; published := pub; console := con;
       ticks := n |}
  = {| activeAlerts := [("ERU_abnormal_status", clock n)];
       published :=
         (pub ++ [create_toast "ERU_abnormal_status" error
                    "Error: Abnormal Status"
                    ("Abnormal ERU status (low battery: "
                       ++ toFixed 15%R 1 ++ "%)!")%string])%list;
       console := (con ++ ["Alert emitted: ERU_abnormal_status"])%list;
       ticks := S n |}
  /\ (100 < calculateDistance 0 0 0 0.001)%R.
Proof.
  pose proof calculateDistance_scenario as [Hfar _].
  split; [|lra].
  rewrite exec_checkAlerts.
  rewrite (checkVehicle_absent clock toFixed scenario "MRA" eq_refl), exec_ret.
  rewrite (exec_checkVehicle clock toFixed scenario "ERU" _ _ eq_refl).
  rewrite (exec_checkVehicle clock toFixed scenario "MEA" _ _ eq_refl).
  unfold checkPair, scenario, position_of.
  cbv [signal_strength vehicle_status battery_life current_position
       latitude longitude ERU MEA MRA].
  rewrite !checkSignalStrength_ge by lra.
  rewrite (checkBatteryLevel_lt clock toFixed "ERU") by lra.
  rewrite (checkBatteryLevel_ge clock toFixed "MEA") by lra.
  rewrite checkVehicleProximity_far by lra.
  reflexivity.
Qed.

(** ** Direction of the proximity keys *)

(** C9. In every store reachable from the freshly loaded module through
    [checkAlerts] and [clearAllAlerts], an active proximity key is one of
    ERU_proximity_MEA, ERU_proximity_MRA and MEA_proximity_MRA; the keys
    of the reverse direction are never active. *)
Theorem proximity_keys_one_direction (clock : nat -> Z)
    (toFixed : R -> nat -> string) (w : World) :
  reachable clock toFixed w ->
  (forall k : string,
     In k (fst (getActiveAlerts w)) -> proximity_key k ->
     In k forward_proximity_keys)
  /\ ~ In (getAlertKey "MEA" "proximity_ERU") (fst (getActiveAlerts w))
  /\ ~ In (getAlertKey "MRA" "proximity_ERU") (fst (getActiveAlerts w))
  /\ ~ In (getAlertKey "MRA" "proximity_MEA") (fst (getActiveAlerts w)).
Proof.
  intros Hr.
  assert (Hrev : forall k, ~ In k pass_keys ->
                   ~ In k (fst (getActiveAlerts w))).
  { intros k Hk Hin. apply Hk. exact (reachable_keys _ _ _ _ Hr Hin). }
  split; [|repeat split; apply Hrev; vm_compute; intuition discriminate].
  intros k Hin Hprox.
  pose proof (reachable_keys _ _ _ _ Hr Hin) as Hk.
  apply proximity_key_infix in Hprox.
  unfold pass_keys, vehicle_keys, vehicle_types, getAlertKey in Hk.
  simpl in Hk. unfold forward_proximity_keys. simpl.
  repeat (destruct Hk as [<-|Hk];
          [first [discriminate Hprox | tauto]|]).
  destruct Hk.
Qed.

Lemma proximity_keys_one_direction_witness :
  let clock := fun n : nat => (1000 + Z.of_nat n)%Z in
  let toFixed := fun (_ : R) (_ : nat) => "0" in
  let w := exec (checkAlerts clock toFixed (Some same_point)) initial in
  In "ERU_proximity_MEA" (fst (getActiveAlerts w))
  /\ In "ERU_proximity_MEA" forward_proximity_keys.
Proof.
  intros clock toFixed w.
  assert (Hr : reachable clock toFixed w)
    by (apply reachable_checkAlerts, reachable_initial).
  assert (Hin : In "ERU_proximity_MEA" (fst (getActiveAlerts w))).
  { unfold w.
    change (In "ERU_proximity_MEA"
              (JsMap.keys
                 (activeAlerts
                    (exec (checkAlerts clock toFixed (Some same_point))
                       initial)))).
    rewrite same_point_pass. simpl; tauto. }
  assert (Hprox : proximity_key "ERU_proximity_MEA")
    by (exists "ERU", "MEA"; reflexivity).
  split; [exact Hin|].
  exact (proj1 (proximity_keys_one_direction clock toFixed w Hr)
           "ERU_proximity_MEA" Hin Hprox).
Defined.

(** ** Absent vehicle record *)

(** C10. The snapshot is present but the record of one vehicle is absent:
    the pass leaves every key of that vehicle as it was (none is cleared),
    and likewise the proximity keys of the other vehicles that name it,
    while for each vehicle whose record is present the checkers have run,
    so its alerts stand as its record says. *)
Theorem absent_vehicle_keys_untouched (clock : nat -> Z)
    (toFixed : R -> nat -> string) (ts : VehicleTelemetryData)
    (vehicle : string) (w : World) :
  In vehicle vehicles ->
  telemetry_get ts vehicle = None ->
  let w' := exec (checkAlerts clock toFixed (Some ts)) w in
  (forall type : string,
     JsMap.get (activeAlerts w') (getAlertKey vehicle type)
     = JsMap.get (activeAlerts w) (getAlertKey vehicle type))
  /\ (forall other : string,
       In other vehicles ->
       JsMap.get (activeAlerts w') (getAlertKey other ("proximity_" ++ vehicle))
       = JsMap.get (activeAlerts w)
           (getAlertKey other ("proximity_" ++ vehicle)))
  /\ forall (other : string) (data : VehicleData),
       telemetry_get ts other = Some data ->
       (JsMap.has (activeAlerts w') (getAlertKey other "signal_strength") = true
          <-> (signal_strength data < -70)%R
              \/ vehicle_status data = "Bad Connection")
       /\ (vehicle_status data = "Disconnected" ->
           JsMap.has (activeAlerts w') (getAlertKey other "heartbeat_timeout")
             = true)
       /\ (vehicle_status data = "Connected" ->
           JsMap.has (activeAlerts w') (getAlertKey other "heartbeat_timeout")
             = false)
       /\ (JsMap.has (activeAlerts w') (getAlertKey other "abnormal_status")
             = true
          <-> (battery_life data < 20)%R)
       /\ (JsMap.has (activeAlerts w') (getAlertKey other "geo_fence") = true
          <-> vehicle_status data = "Approaching restricted area").
Proof.
  intros Hv Habs w'. split; [|split].
  - intros type. now apply checkAlerts_absent_frame.
  - intros other Ho. now apply checkAlerts_absent_frame_proximity.
  - intros other data Hget. now apply checkAlerts_verdicts.
Qed.

Lemma absent_vehicle_keys_untouched_witness :
  let clock := fun n : nat => (9000 + Z.of_nat n)%Z in
  let toFixed := fun (_ : R) (_ : nat) => "0" in
  let data := {| signal_strength := (-50)%R;
                 vehicle_status := "Connected";
                 battery_life := 80%R;
                 current_position := None |} in
  let ts := {| ERU := Some data; MEA := Some data; MRA := None |} in
  let w := {| activeAlerts := [("MRA_abnormal_status", 1000%Z)];
              published := [];
              console := [];
              ticks := 1 |} in
  JsMap.get (activeAlerts (exec (checkAlerts clock toFixed (Some ts)) w))
    "MRA_abnormal_status" = Some 1000%Z.
Proof.
  intros clock toFixed data ts w.
  assert (Hv : In "MRA" vehicles) by (simpl; tauto).
  exact (proj1 (absent_vehicle_keys_untouched clock toFixed ts "MRA" w
                  Hv eq_refl) "abnormal_status").
Defined.

(** * Further properties *)

(** ** Alert keys do not collide *)

(** X1. Two alert keys built from vehicle names without an underscore are
    equal only when the vehicles and the alert types are. *)
Theorem getAlertKey_injective (vehicle1 type1 vehicle2 type2 : string) :
  no_underscore vehicle1 = true ->
  no_underscore vehicle2 = true ->
  getAlertKey vehicle1 type1 = getAlertKey vehicle2 type2 ->
  vehicle1 = vehicle2 /\ type1 = type2.
Proof.
  unfold getAlertKey. revert vehicle2.
  induction vehicle1 as [|c1 v1 IH]; intros [|c2 v2] H1 H2 E; simpl in *.
  - injection E as ->. auto.
  - injection E as <- _. now rewrite Ascii.eqb_refl in H2.
  - injection E as -> _. now rewrite Ascii.eqb_refl in H1.
  - injection E as -> E.
    apply andb_prop in H1 as [_ H1]. apply andb_prop in H2 as [_ H2].
    destruct (IH v2 H1 H2 E) as [-> ->]. auto.
Qed.

Lemma getAlertKey_injective_witness :
  "ERU" = "ERU" /\ "geo_fence" = "geo_fence".
Proof.
  apply (getAlertKey_injective "ERU" "geo_fence" "ERU" "geo_fence");
    reflexivity.
Defined.

(** With an underscore in a vehicle name two different alerts share a
    key. *)
Remark getAlertKey_collision :
  getAlertKey "A_B" "C" = getAlertKey "A" "B_C".
Proof. reflexivity. Qed.

(** ** Emit and clear, composed *)

Lemma JsMap_delete_set_fresh (m : JsMap.t) (k : string) (v : Z) :
  JsMap.get m k = None -> JsMap.delete (JsMap.set m k v) k = m.
Proof.
  induction m as [|[k' v'] m IH]; simpl.
  - now rewrite String.eqb_refl.
  - destruct (String.eqb k' k) eqn:E; [discriminate|].
    intros H. simpl. rewrite E. now rewrite IH.
Qed.

Section Composition.

Variable clock : nat -> Z.

(** An emit right after the clear of the same key finds no timestamp. *)
Lemma clear_then_emit (vehicle type : string) (severity : Severity)
    (title description : string) (w : World) :
  let alertKey := getAlertKey vehicle type in
  published
    (exec (emitAlert clock vehicle type severity title description)
       (exec (clearAlert vehicle type) w))
  = (published w
       ++ (if JsMap.has (activeAlerts w) alertKey
           then [dismiss_toast alertKey] else [])
       ++ [create_toast alertKey severity title description])%list.
Proof.
  intros alertKey.
  pose proof (clearAlert_has vehicle type w) as Hoff.
  apply JsMapFacts.has_false_get in Hoff.
  rewrite emitAlert_exec; cbv zeta. rewrite Hoff. simpl.
  rewrite clearAlert_exec; cbv zeta. fold alertKey.
  destruct (JsMap.has (activeAlerts w) alertKey); simpl.
  - now rewrite <- app_assoc.
  - reflexivity.
Qed.

(** X2. Emitting an alert whose key is not active and clearing it again
    gives back the store as it was, entry for entry, and publishes the
    create followed by the dismiss. *)
Theorem emit_then_clear_restores (vehicle type : string) (severity : Severity)
    (title description : string) (w : World) :
  let alertKey := getAlertKey vehicle type in
  let w' := exec (clearAlert vehicle type)
              (exec (emitAlert clock vehicle type severity title description)
                 w) in
  JsMap.get (activeAlerts w) alertKey = None ->
  activeAlerts w' = activeAlerts w
  /\ published w'
     = (published w ++ [create_toast alertKey severity title description;
                        dismiss_toast alertKey])%list.
Proof.
  intros alertKey w' Hfresh. unfold w'.
  rewrite clearAlert_exec; cbv zeta.
  rewrite (emitAlert_has clock vehicle type severity title description w).
  simpl. rewrite emitAlert_exec; cbv zeta. fold alertKey.
  rewrite Hfresh. simpl. split.
  - now apply JsMap_delete_set_fresh.
  - now rewrite <- app_assoc.
Qed.

(** X3. A clear resets the debounce: whatever the store and the clock, an
    [emitAlert] that follows the [clearAlert] of its key publishes its
    create notification, after the dismiss when the key was active. *)
Theorem clear_resets_debounce (vehicle type : string) (severity : Severity)
    (title description : string) (w : World) :
  let alertKey := getAlertKey vehicle type in
  let w' := exec (emitAlert clock vehicle type severity title description)
              (exec (clearAlert vehicle type) w) in
  published w'
  = (published w
       ++ (if JsMap.has (activeAlerts w) alertKey
           then [dismiss_toast alertKey] else [])
       ++ [create_toast alertKey severity title description])%list
  /\ JsMap.get (activeAlerts w') alertKey
     = Some (clock (ticks w)).
Proof.
  intros alertKey w'. split; [apply clear_then_emit|].
  unfold w'.
  pose proof (clearAlert_has vehicle type w) as Hoff.
  apply JsMapFacts.has_false_get in Hoff.
  rewrite emitAlert_exec; cbv zeta. rewrite Hoff. simpl.
  rewrite JsMapFacts.get_set_eq. f_equal. f_equal.
  rewrite clearAlert_exec; cbv zeta.
  now destruct (JsMap.has _ _).
Qed.

(** X4. A vehicle in "Bad Connection" with a signal strength of at least
    -70 has its signal alert dismissed and created again by every pass of
    its two checkers, however recent the last publish: the debounce does
    not apply. *)
Theorem bad_connection_republishes (vehicle : string) (x : R) (w : World) :
  let alertKey := getAlertKey vehicle "signal_strength" in
  (-70 <= x)%R ->
  published
    (exec (checkConnectionStatus clock vehicle "Bad Connection")
       (exec (checkSignalStrength clock vehicle x) w))
  = (published w
       ++ (if JsMap.has (activeAlerts w) alertKey
           then [dismiss_toast alertKey] else [])
       ++ [create_toast alertKey warning "Warning: Signal Integrity"
             ("Weak signal integrity/connection lost to "
                ++ vehicle ++ "!")%string])%list.
Proof.
  intros alertKey Hx.
  rewrite (checkSignalStrength_ge clock vehicle x Hx).
  unfold checkConnectionStatus. simpl String.eqb. cbv iota.
  rewrite exec_seq, exec_ret.
  apply clear_then_emit.
Qed.

End Composition.

Lemma emit_then_clear_restores_witness :
  let clock := fun _ : nat => 7000%Z in
  let w := {| activeAlerts := [("MEA_geo_fence", 5000%Z)];
              published := []; console := []; ticks := 3 |} in
  let w' := exec (clearAlert "ERU" "abnormal_status")
              (exec (emitAlert clock "ERU" "abnormal_status" error "t" "d")
                 w) in
  activeAlerts w' = [("MEA_geo_fence", 5000%Z)]
  /\ published w' = [create_toast "ERU_abnormal_status" error "t" "d";
                     dismiss_toast "ERU_abnormal_status"].
Proof.
  intros clock0 w.
  apply (emit_then_clear_restores clock0 "ERU" "abnormal_status" error "t" "d" w).
  reflexivity.
Defined.

Lemma bad_connection_republishes_witness :
  let clock := fun n : nat => (1000 + Z.of_nat n)%Z in
  let w := {| activeAlerts := [("ERU_signal_strength", 999%Z)];
              published := []; console := []; ticks := 0 |} in
  published
    (exec (checkConnectionStatus clock "ERU" "Bad Connection")
       (exec (checkSignalStrength clock "ERU" (-50)) w))
  = [dismiss_toast "ERU_signal_strength";
     create_toast "ERU_signal_strength" warning "Warning: Signal Integrity"
       "Weak signal integrity/connection lost to ERU!"].
Proof.
  intros clock0 w.
  assert (Hx : (-70 <= -50)%R) by lra.
  exact (bad_connection_republishes clock0 "ERU" (-50)%R w Hx).
Defined.

(** ** Invariants of the reachable worlds *)

Ltac in_list := repeat first [left; reflexivity | right].

Section Invariants.

Variable clock : nat -> Z.
Variable toFixed : R -> nat -> string.
Variable P : World -> Prop.

Hypothesis P_emit :
  forall (vehicle type : string) (severity : Severity)
         (title description : string),
    In (vehicle, type, severity, title) pass_alerts ->
    invariant P (emitAlert clock vehicle type severity title description).

Hypothesis P_clear :
  forall (vehicle type : string) (severity : Severity) (title : string),
    In (vehicle, type, severity, title) pass_alerts ->
    invariant P (clearAlert vehicle type).

Lemma invariant_ret : invariant P (ret tt).
Proof. intros w H. exact H. Qed.

Lemma invariant_seq (m1 m2 : M unit) :
  invariant P m1 -> invariant P m2 -> invariant P (m1 ;; m2).
Proof. intros H1 H2 w H. rewrite exec_seq. auto. Qed.

Lemma vehicle_alerts_in (vehicle : string)
    (a : string * string * Severity * string) :
  In vehicle vehicles -> In a (vehicle_alerts vehicle) -> In a pass_alerts.
Proof.
  unfold pass_alerts.
  intros [<-|[<-|[<-|[]]]] Ha; repeat (apply in_or_app; first [now left | right]).
Qed.

Ltac invariant_steps :=
  first [ apply invariant_ret
        | apply P_emit; unfold pass_alerts, vehicle_alerts; simpl; in_list
        | eapply P_clear; unfold pass_alerts, vehicle_alerts; simpl; in_list
        | apply invariant_seq; [invariant_steps | invariant_steps] ].

Ltac vehicle_step Hv :=
  first [ apply invariant_ret
        | apply P_emit; apply (vehicle_alerts_in _ _ Hv); simpl; in_list
        | eapply P_clear; apply (vehicle_alerts_in _ _ Hv); simpl; in_list ].

Lemma invariant_checkVehicle (ts : VehicleTelemetryData) (vehicle : string) :
  In vehicle vehicles -> invariant P (checkVehicle clock toFixed ts vehicle).
Proof.
  intros Hv. unfold checkVehicle.
  destruct (telemetry_get ts vehicle) as [data|]; [|apply invariant_ret].
  apply invariant_seq; [|apply invariant_seq; [|apply invariant_seq]].
  - unfold checkSignalStrength. destruct (Rlt_dec _ _); vehicle_step Hv.
  - unfold checkConnectionStatus. apply invariant_seq.
    + destruct (String.eqb _ "Disconnected"); [vehicle_step Hv|].
      destruct (String.eqb _ "Connected"); vehicle_step Hv.
    + destruct (String.eqb _ "Bad Connection"); vehicle_step Hv.
  - unfold checkBatteryLevel. destruct (Rlt_dec _ _); vehicle_step Hv.
  - unfold checkGeoFenceStatus.
    destruct (String.eqb _ "Approaching restricted area"); simpl;
      vehicle_step Hv.
Qed.

Lemma invariant_checkPair (vehicle1 vehicle2 : string)
    (d1 d2 : option VehicleData) :
  In (vehicle1, vehicle2) vehicle_pairs ->
  invariant P (checkPair clock toFixed vehicle1 d1 vehicle2 d2).
Proof.
  intros Hp. unfold checkPair.
  destruct (position_of d1); [destruct (position_of d2)|];
    try apply invariant_ret.
  unfold checkVehicleProximity; cbv zeta.
  destruct Hp as [E|[E|[E|[]]]]; injection E as <- <-;
    destruct (Rlt_dec _ _); invariant_steps.
Qed.

Lemma invariant_checkAlerts (ts : option VehicleTelemetryData) :
  invariant P (checkAlerts clock toFixed ts).
Proof.
  destruct ts as [ts|]; [|apply invariant_ret].
  unfold checkAlerts, vehicles, forEach.
  repeat apply invariant_seq;
    first [ apply invariant_ret
          | apply invariant_checkVehicle; simpl; tauto
          | apply invariant_checkPair; simpl; tauto ].
Qed.

Hypothesis P_initial : P initial.
Hypothesis P_clearAll : invariant P clearAllAlerts.

Lemma reachable_invariant (w : World) : reachable clock toFixed w -> P w.
Proof.
  induction 1 as [|w ts _ IH|w _ IH].
  - exact P_initial.
  - now apply invariant_checkAlerts.
  - now apply P_clearAll.
Qed.

End Invariants.

Lemma announced_snoc (trace : list Event) (e : Event) (k : string) :
  announced (trace ++ [e]) k
  = if String.eqb (event_id e) k then is_create e else announced trace k.
Proof. unfold announced. now rewrite fold_left_app. Qed.

(** After the dismisses of a list of keys, a key of the list has a dismiss
    as its last event and the others stand as before. *)
Lemma announced_dismisses (trace : list Event) (l : list string)
    (k : string) :
  announced (trace ++ map dismiss_toast l) k
  = if in_dec string_dec k l then false else announced trace k.
Proof.
  revert trace. induction l as [|k' l IH]; intros trace.
  - simpl. now rewrite app_nil_r.
  - change (trace ++ map dismiss_toast (k' :: l))%list
      with (trace ++ [dismiss_toast k'] ++ map dismiss_toast l)%list.
    rewrite app_assoc, IH, announced_snoc. simpl event_id. simpl is_create.
    destruct (in_dec string_dec k l) as [Hin|Hnin];
      destruct (in_dec string_dec k (k' :: l)) as [Hin'|Hnin'];
      try reflexivity.
    + exfalso. apply Hnin'. now right.
    + destruct Hin' as [->|Hin']; [|contradiction].
      now rewrite String.eqb_refl.
    + destruct (String.eqb_spec k' k) as [->|_]; [|reflexivity].
      exfalso. apply Hnin'. now left.
Qed.

Section ReachableFacts.

Variable clock : nat -> Z.
Variable toFixed : R -> nat -> string.

Lemma stamped_emitAlert (vehicle type : string) (severity : Severity)
    (title description : string) :
  invariant (stamped clock)
    (emitAlert clock vehicle type severity title description).
Proof.
  intros w H k t. rewrite emitAlert_exec; cbv zeta.
  destruct (shouldUpdate _ _); simpl.
  - destruct (string_dec (getAlertKey vehicle type) k) as [<-|Hne].
    + rewrite JsMapFacts.get_set_eq. intros E. injection E as <-.
      exists (ticks w). split; [lia | reflexivity].
    + rewrite (JsMapFacts.get_set_neq _ _ _ _ Hne). intros E.
      destruct (H k t E) as (n & Hn & ->). exists n. split; [lia | reflexivity].
  - intros E. destruct (H k t E) as (n & Hn & ->).
    exists n. split; [lia | reflexivity].
Qed.

Lemma stamped_clearAlert (vehicle type : string) :
  invariant (stamped clock) (clearAlert vehicle type).
Proof.
  intros w H k t. rewrite clearAlert_exec; cbv zeta.
  destruct (JsMap.has _ _); simpl; [|apply H].
  destruct (string_dec (getAlertKey vehicle type) k) as [<-|Hne].
  - now rewrite JsMapFacts.get_delete_eq.
  - rewrite (JsMapFacts.get_delete_neq _ _ _ Hne). apply H.
Qed.

(** X5. In every reachable world each stored timestamp is a value that
    [Date.now()] returned at an earlier call. *)
Theorem reachable_stamped (w : World) :
  reachable clock toFixed w -> stamped clock w.
Proof.
  apply (reachable_invariant clock toFixed (stamped clock)).
  - intros. apply stamped_emitAlert.
  - intros. apply stamped_clearAlert.
  - intros k t E. discriminate E.
  - intros w0 _ k t E. rewrite clearAllAlerts_exec in E. discriminate E.
Qed.

Lemma alert_table_in (vehicle type : string) (severity : Severity)
    (title : string) :
  In (vehicle, type, severity, title) pass_alerts ->
  In (getAlertKey vehicle type, severity, title) alert_table.
Proof.
  intros Hin. unfold alert_table.
  apply in_map_iff. exists (vehicle, type, severity, title). auto.
Qed.

Lemma alert_table_keys : map (fun a => fst (fst a)) alert_table = pass_keys.
Proof. reflexivity. Qed.

Lemma pass_alerts_key (vehicle type : string) (severity : Severity)
    (title : string) :
  In (vehicle, type, severity, title) pass_alerts ->
  In (getAlertKey vehicle type) pass_keys.
Proof.
  intros Hin. rewrite <- alert_table_keys.
  apply in_map_iff. exists (getAlertKey vehicle type, severity, title).
  split; [reflexivity | now apply alert_table_in].
Qed.

Lemma tabled_emitAlert (vehicle type : string) (severity : Severity)
    (title description : string) :
  In (vehicle, type, severity, title) pass_alerts ->
  invariant tabled (emitAlert clock vehicle type severity title description).
Proof.
  intros Hin w [He Hk]. rewrite emitAlert_exec; cbv zeta.
  destruct (shouldUpdate _ _); simpl; [|split; assumption].
  split.
  - simpl. apply Forall_app. split; [exact He|].
    constructor; [|constructor]. now apply alert_table_in.
  - simpl. intros k Hin'. apply JsMapFacts.keys_set in Hin' as [->|Hin'].
    + now apply (pass_alerts_key _ _ severity title).
    + now apply Hk.
Qed.

Lemma tabled_clearAlert (vehicle type : string) (severity : Severity)
    (title : string) :
  In (vehicle, type, severity, title) pass_alerts ->
  invariant tabled (clearAlert vehicle type).
Proof.
  intros Hin w [He Hk]. rewrite clearAlert_exec; cbv zeta.
  destruct (JsMap.has _ _); simpl; [|split; assumption].
  split.
  - simpl. apply Forall_app. split; [exact He|].
    constructor; [|constructor].
    now apply (pass_alerts_key _ _ severity title).
  - simpl. intros k Hin'. apply JsMapFacts.keys_delete in Hin' as [_ Hin'].
    now apply Hk.
Qed.

Lemma tabled_clearAllAlerts : invariant tabled clearAllAlerts.
Proof.
  intros w [He Hk]. rewrite clearAllAlerts_exec. split; simpl.
  - apply Forall_app. split; [exact He|].
    apply Forall_forall. intros e Hin.
    apply in_map_iff in Hin as (k & <- & Hin). now apply Hk.
  - intros k [].
Qed.

(** X6. Every event a reachable world has published is one of the table:
    a create carries one of the fifteen keys with the severity and title
    fixed for its alert type (error for heartbeat_timeout and
    abnormal_status, warning for the others), a dismiss names one of the
    fifteen keys. *)
Theorem reachable_events_ok (w : World) :
  reachable clock toFixed w -> Forall event_ok (published w).
Proof.
  intros Hr.
  apply (reachable_invariant clock toFixed tabled); try exact Hr.
  - intros. now apply tabled_emitAlert.
  - intros. now apply (tabled_clearAlert _ _ severity title).
  - split; [constructor | intros k []].
  - exact tabled_clearAllAlerts.
Qed.

Lemma announced_emitAlert (vehicle type : string) (severity : Severity)
    (title description : string) :
  invariant
    (fun w => forall k : string,
       announced (published w) k = JsMap.has (activeAlerts w) k)
    (emitAlert clock vehicle type severity title description).
Proof.
  intros w H k. rewrite emitAlert_exec; cbv zeta.
  destruct (shouldUpdate _ _); simpl; [|apply H].
  rewrite announced_snoc. simpl event_id. simpl is_create.
  unfold JsMap.has.
  destruct (String.eqb_spec (getAlertKey vehicle type) k) as [<-|Hne].
  - now rewrite JsMapFacts.get_set_eq.
  - rewrite (JsMapFacts.get_set_neq _ _ _ _ Hne). apply H.
Qed.

Lemma announced_clearAlert (vehicle type : string) :
  invariant
    (fun w => forall k : string,
       announced (published w) k = JsMap.has (activeAlerts w) k)
    (clearAlert vehicle type).
Proof.
  intros w H k. rewrite clearAlert_exec; cbv zeta.
  destruct (JsMap.has (activeAlerts w) (getAlertKey vehicle type));
    simpl; [|apply H].
  rewrite announced_snoc. simpl event_id. simpl is_create.
  unfold JsMap.has.
  destruct (String.eqb_spec (getAlertKey vehicle type) k) as [<-|Hne].
  - now rewrite JsMapFacts.get_delete_eq.
  - rewrite (JsMapFacts.get_delete_neq _ _ _ Hne). apply H.
Qed.

Lemma announced_clearAllAlerts :
  invariant
    (fun w => forall k : string,
       announced (published w) k = JsMap.has (activeAlerts w) k)
    clearAllAlerts.
Proof.
  intros w H k. rewrite clearAllAlerts_exec; simpl.
  rewrite announced_dismisses.
  destruct (in_dec string_dec k (JsMap.keys (activeAlerts w)))
    as [Hin|Hnin]; [reflexivity|].
  rewrite H. apply not_true_is_false.
  intros Hon. apply Hnin. now apply JsMapFacts.has_keys.
Qed.

(** X7. The trace tells which alerts are active: in every reachable world
    a key is active exactly when the last event published about it is a
    create.  No alert becomes active without a create, none is removed
    from the store without a dismiss, and nothing is dismissed while it
    stays active. *)
Theorem reachable_active_iff_announced (w : World) :
  reachable clock toFixed w ->
  forall k : string,
    announced (published w) k = JsMap.has (activeAlerts w) k.
Proof.
  intros Hr.
  apply (reachable_invariant clock toFixed
           (fun w => forall k : string,
              announced (published w) k = JsMap.has (activeAlerts w) k));
    try exact Hr.
  - intros. apply announced_emitAlert.
  - intros. apply announced_clearAlert.
  - reflexivity.
  - exact announced_clearAllAlerts.
Qed.

End ReachableFacts.

Lemma reachable_stamped_witness :
  let clock := fun n : nat => (1000 + Z.of_nat n)%Z in
  let toFixed := fun (_ : R) (_ : nat) => "0" in
  stamped clock (exec (checkAlerts clock toFixed (Some same_point)) initial).
Proof.
  intros clock toFixed.
  apply (reachable_stamped clock toFixed).
  apply reachable_checkAlerts, reachable_initial.
Defined.

Lemma reachable_events_ok_witness :
  let clock := fun n : nat => (1000 + Z.of_nat n)%Z in
  let toFixed := fun (_ : R) (_ : nat) => "0" in
  Forall event_ok
    (published (exec (checkAlerts clock toFixed (Some same_point)) initial)).
Proof.
  intros clock toFixed.
  apply (reachable_events_ok clock toFixed).
  apply reachable_checkAlerts, reachable_initial.
Defined.

Lemma reachable_active_iff_announced_witness :
  let clock := fun n : nat => (1000 + Z.of_nat n)%Z in
  let toFixed := fun (_ : R) (_ : nat) => "0" in
  let w := exec (checkAlerts clock toFixed (Some same_point)) initial in
  announced (published w) "ERU_proximity_MEA"
  = JsMap.has (activeAlerts w) "ERU_proximity_MEA".
Proof.
  intros clock toFixed w.
  apply (reachable_active_iff_announced clock toFixed).
  apply reachable_checkAlerts, reachable_initial.
Defined.

(** ** The proximity checks of a pass *)

Ltac frame_get :=
  match goal with
  | |- context [JsMap.get (activeAlerts
                  (exec (checkPair ?c ?f ?a ?d1 ?b ?d2) ?w0)) ?k] =>
      rewrite (modifies_get _ _ w0 k (modifies_checkPair c f a d1 b d2))
        by notin
  | |- context [JsMap.get (activeAlerts
                  (exec (checkVehicle ?c ?f ?ts ?v) ?w0)) ?k] =>
      rewrite (modifies_get _ _ w0 k (modifies_checkVehicle c f ts v))
        by notin
  end.

Section ProximityFacts.

Variable clock : nat -> Z.
Variable toFixed : R -> nat -> string.

Lemma checkVehicleProximity_has (vehicle1 : string) (lat1 lon1 : R)
    (vehicle2 : string) (lat2 lon2 : R) (w : World) :
  JsMap.has
    (activeAlerts
       (exec (checkVehicleProximity clock toFixed
                vehicle1 lat1 lon1 vehicle2 lat2 lon2) w))
    (getAlertKey vehicle1 ("proximity_" ++ vehicle2))
  = if Rlt_dec (calculateDistance lat1 lon1 lat2 lon2)
         (PROXIMITY ALERT_THRESHOLDS)
    then true else false.
Proof.
  unfold checkVehicleProximity; cbv zeta. destruct (Rlt_dec _ _).
  - apply emitAlert_has.
  - apply clearAlert_has.
Qed.

(** The entry of a proximity key after a pass is the one its own guarded
    block leaves: no other step of the pass writes the key. *)
Lemma checkAlerts_pair_key (ts : VehicleTelemetryData)
    (vehicle1 vehicle2 : string) (w : World) :
  In (vehicle1, vehicle2) vehicle_pairs ->
  exists w0 : World,
    JsMap.get (activeAlerts (exec (checkAlerts clock toFixed (Some ts)) w))
      (getAlertKey vehicle1 ("proximity_" ++ vehicle2))
    = JsMap.get
        (activeAlerts
           (exec (checkPair clock toFixed
                    vehicle1 (telemetry_get ts vehicle1)
                    vehicle2 (telemetry_get ts vehicle2)) w0))
        (getAlertKey vehicle1 ("proximity_" ++ vehicle2))
    /\ JsMap.get (activeAlerts w0)
         (getAlertKey vehicle1 ("proximity_" ++ vehicle2))
       = JsMap.get (activeAlerts w)
           (getAlertKey vehicle1 ("proximity_" ++ vehicle2)).
Proof.
  intros Hp. rewrite exec_checkAlerts.
  destruct Hp as [E|[E|[E|[]]]]; injection E as <- <-;
    change (telemetry_get ts "ERU") with (ERU ts);
    change (telemetry_get ts "MEA") with (MEA ts);
    change (telemetry_get ts "MRA") with (MRA ts);
    repeat frame_get;
    eexists; (split; [reflexivity|]);
    repeat frame_get; reflexivity.
Qed.

(** X8. For each of the three pairs: when both vehicles report a
    position, the pair's proximity alert is active after the pass exactly
    when the two are less than 100 ft apart; when either position is
    missing, the pass leaves the pair's alert as it was, active or not. *)
Theorem checkAlerts_proximity (ts : VehicleTelemetryData)
    (vehicle1 vehicle2 : string) (w : World) :
  In (vehicle1, vehicle2) vehicle_pairs ->
  let alertKey := getAlertKey vehicle1 ("proximity_" ++ vehicle2) in
  let w' := exec (checkAlerts clock toFixed (Some ts)) w in
  match position_of (telemetry_get ts vehicle1),
        position_of (telemetry_get ts vehicle2) with
  | Some p1, Some p2 =>
      JsMap.has (activeAlerts w') alertKey = true
      <-> (calculateDistance (latitude p1) (longitude p1)
             (latitude p2) (longitude p2) < 100)%R
  | _, _ =>
      JsMap.get (activeAlerts w') alertKey
      = JsMap.get (activeAlerts w) alertKey
  end.
Proof.
  intros Hp alertKey w'.
  destruct (checkAlerts_pair_key ts vehicle1 vehicle2 w Hp)
    as (w0 & E & E0).
  fold alertKey w' in E, E0.
  unfold checkPair in E.
  destruct (position_of (telemetry_get ts vehicle1)) as [p1|];
    [destruct (position_of (telemetry_get ts vehicle2)) as [p2|]|].
  - unfold JsMap.has at 1. rewrite E.
    fold (JsMap.has
            (activeAlerts
               (exec (checkVehicleProximity clock toFixed
                        vehicle1 (latitude p1) (longitude p1)
                        vehicle2 (latitude p2) (longitude p2)) w0))
            alertKey).
    unfold alertKey. rewrite checkVehicleProximity_has.
    unfold ALERT_THRESHOLDS; simpl.
    destruct (Rlt_dec _ 100); split; auto; discriminate.
  - now rewrite E, exec_ret.
  - now rewrite E, exec_ret.
Qed.

End ProximityFacts.

Lemma checkAlerts_proximity_witness :
  let clock := fun n : nat => (1000 + Z.of_nat n)%Z in
  let toFixed := fun (_ : R) (_ : nat) => "0" in
  JsMap.has
    (activeAlerts (exec (checkAlerts clock toFixed (Some scenario)) initial))
    "ERU_proximity_MEA" = true
  <-> (calculateDistance 0 0 0 0.001 < 100)%R.
Proof.
  intros clock toFixed.
  assert (Hp : In ("ERU", "MEA") vehicle_pairs) by (simpl; tauto).
  exact (checkAlerts_proximity clock toFixed scenario "ERU" "MEA" initial Hp).
Defined.

(** ** A second pass on the same snapshot *)

Section Steady.

Variable clock : nat -> Z.
Variable toFixed : R -> nat -> string.

Lemma same_refl (w : World) : same w w.
Proof. repeat split. apply Nat.le_refl. Qed.

Lemma emitAlert_same (vehicle type : string) (severity : Severity)
    (title description : string) (w w1 : World) :
  quiet clock w -> same w w1 ->
  JsMap.has (activeAlerts w) (getAlertKey vehicle type) = true ->
  same w (exec (emitAlert clock vehicle type severity title description) w1).
Proof.
  intros Hq (Ha & Hp & Hc & Ht) Hon.
  unfold JsMap.has in Hon.
  destruct (JsMap.get (activeAlerts w) (getAlertKey vehicle type))
    as [t|] eqn:Hget; [clear Hon | discriminate].
  destruct (Hq _ _ Hget) as [Hnz Hwin].
  assert (Hno : shouldUpdate
                  (JsMap.get (activeAlerts w1) (getAlertKey vehicle type))
                  (clock (ticks w1)) = false).
  { rewrite Ha, Hget. unfold shouldUpdate, falsy.
    apply orb_false_intro; [now apply Z.eqb_neq|].
    apply Z.leb_gt. now apply Hwin. }
  destruct (emitAlert_debounced clock vehicle type severity title description
              w1 Hno) as (P1 & S1 & T1).
  rewrite emitAlert_exec in *; cbv zeta in *. rewrite Hno in *. simpl in *.
  repeat split; simpl; auto.
Qed.

Lemma clearAlert_same (vehicle type : string) (w w1 : World) :
  same w w1 ->
  JsMap.has (activeAlerts w) (getAlertKey vehicle type) = false ->
  same w (exec (clearAlert vehicle type) w1).
Proof.
  intros (Ha & Hp & Hc & Ht) Hoff.
  rewrite clearAlert_exec; cbv zeta. rewrite Ha, Hoff.
  repeat split; assumption.
Qed.

Lemma not_true_false (b : bool) : b <> true -> b = false.
Proof. destruct b; congruence. Qed.

(** The block of a vehicle, run again after a pass on the same snapshot. *)
Lemma checkVehicle_steady (ts : VehicleTelemetryData) (vehicle : string)
    (w0 w1 : World) :
  let w := exec (checkAlerts clock toFixed (Some ts)) w0 in
  (forall data : VehicleData,
     telemetry_get ts vehicle = Some data ->
     vehicle_status data = "Bad Connection" ->
     (signal_strength data < -70)%R) ->
  quiet clock w -> same w w1 ->
  same w (exec (checkVehicle clock toFixed ts vehicle) w1).
Proof.
  intros w Hnc Hq Hs. unfold checkVehicle.
  destruct (telemetry_get ts vehicle) as [data|] eqn:Hget;
    [|now rewrite exec_ret].
  destruct (checkAlerts_verdicts clock toFixed ts vehicle data w0 Hget)
    as (Vsig & Vdis & Vcon & Vbat & Vgeo).
  fold w in Vsig, Vdis, Vcon, Vbat, Vgeo.
  specialize (Hnc data eq_refl).
  rewrite !exec_seq.
  assert (S1 : same w
            (exec (checkSignalStrength clock vehicle (signal_strength data))
               w1)).
  { unfold checkSignalStrength, ALERT_THRESHOLDS; simpl.
    destruct (Rlt_dec (signal_strength data) (-70)) as [Hlt|Hge].
    - apply emitAlert_same; auto. apply Vsig. now left.
    - apply clearAlert_same; auto. apply not_true_false.
      intros H. apply Vsig in H as [H|H]; auto. }
  assert (S2 : same w
            (exec (checkConnectionStatus clock vehicle (vehicle_status data))
               (exec (checkSignalStrength clock vehicle
                        (signal_strength data)) w1))).
  { unfold checkConnectionStatus. rewrite exec_seq.
    match goal with
    | |- same w (exec ?m2 (exec ?m1 ?w2)) =>
        assert (S2a : same w (exec m1 w2))
    end.
    { destruct (String.eqb_spec (vehicle_status data) "Disconnected").
      - apply emitAlert_same; auto.
      - destruct (String.eqb_spec (vehicle_status data) "Connected").
        + apply clearAlert_same; auto.
        + now rewrite exec_ret. }
    destruct (String.eqb_spec (vehicle_status data) "Bad Connection").
    - apply emitAlert_same; auto. apply Vsig. now right.
    - now rewrite exec_ret. }
  assert (S3 : same w
            (exec (checkBatteryLevel clock toFixed vehicle (battery_life data))
               (exec (checkConnectionStatus clock vehicle
                        (vehicle_status data))
                  (exec (checkSignalStrength clock vehicle
                           (signal_strength data)) w1)))).
  { unfold checkBatteryLevel, ALERT_THRESHOLDS; simpl.
    destruct (Rlt_dec (battery_life data) 20) as [Hlt|Hge].
    - apply emitAlert_same; auto. now apply Vbat.
    - apply clearAlert_same; auto. apply not_true_false.
      intros H. now apply Vbat in H. }
  unfold checkGeoFenceStatus.
  destruct (String.eqb_spec (vehicle_status data)
              "Approaching restricted area") as [Hgeo|Hgeo]; simpl.
  - apply emitAlert_same; auto. now apply Vgeo.
  - apply clearAlert_same; auto. apply not_true_false.
    intros H. now apply Vgeo in H.
Qed.

(** A guarded proximity block, run again after a pass on the same
    snapshot. *)
Lemma checkPair_steady (ts : VehicleTelemetryData)
    (vehicle1 vehicle2 : string) (w0 w1 : World) :
  let w := exec (checkAlerts clock toFixed (Some ts)) w0 in
  In (vehicle1, vehicle2) vehicle_pairs ->
  quiet clock w -> same w w1 ->
  same w
    (exec (checkPair clock toFixed vehicle1 (telemetry_get ts vehicle1)
             vehicle2 (telemetry_get ts vehicle2)) w1).
Proof.
  intros w Hp Hq Hs.
  destruct (checkAlerts_pair_key clock toFixed ts vehicle1 vehicle2 w0 Hp)
    as (w2 & E & _).
  fold w in E. unfold checkPair in *.
  destruct (position_of (telemetry_get ts vehicle1)) as [p1|];
    [destruct (position_of (telemetry_get ts vehicle2)) as [p2|]|];
    try (now rewrite exec_ret).
  assert (Hhas : JsMap.has (activeAlerts w)
                   (getAlertKey vehicle1 ("proximity_" ++ vehicle2))
                 = if Rlt_dec
                        (calculateDistance (latitude p1) (longitude p1)
                           (latitude p2) (longitude p2))
                        (PROXIMITY ALERT_THRESHOLDS)
                   then true else false).
  { unfold JsMap.has at 1. rewrite E.
    exact (checkVehicleProximity_has clock toFixed vehicle1
             (latitude p1) (longitude p1) vehicle2
             (latitude p2) (longitude p2) w2). }
  unfold checkVehicleProximity; cbv zeta.
  destruct (Rlt_dec _ _).
  - now apply emitAlert_same.
  - now apply clearAlert_same.
Qed.

(** X9. A pass repeated on the same snapshot is silent.  Provided no
    vehicle of the snapshot is in "Bad Connection" with a signal strength
    of at least -70, and the clock stays within the debounce window of
    every stored timestamp (none of them 0), the second pass publishes
    nothing, logs nothing and leaves the store as the first pass left it. *)
Theorem steady_pass_silent (ts : VehicleTelemetryData) (w0 : World) :
  let w := exec (checkAlerts clock toFixed (Some ts)) w0 in
  let w' := exec (checkAlerts clock toFixed (Some ts)) w in
  (forall (vehicle : string) (data : VehicleData),
     telemetry_get ts vehicle = Some data ->
     vehicle_status data = "Bad Connection" ->
     (signal_strength data < -70)%R) ->
  quiet clock w ->
  activeAlerts w' = activeAlerts w
  /\ published w' = published w
  /\ console w' = console w.
Proof.
  intros w w' Hnc Hq.
  assert (Hs : same w w').
  { unfold w'. rewrite exec_checkAlerts.
    change (ERU ts) with (telemetry_get ts "ERU").
    change (MEA ts) with (telemetry_get ts "MEA").
    change (MRA ts) with (telemetry_get ts "MRA").
    repeat first
      [ apply checkPair_steady; [simpl; tauto | exact Hq |]
      | apply checkVehicle_steady; [apply Hnc | exact Hq |] ].
    apply same_refl. }
  destruct Hs as (Ha & Hp & Hc & _). auto.
Qed.

End Steady.

Lemma steady_pass_silent_witness :
  let clock := fun _ : nat => 1000%Z in
  let toFixed := fun (_ : R) (_ : nat) => "0" in
  let w := exec (checkAlerts clock toFixed (Some same_point)) initial in
  let w' := exec (checkAlerts clock toFixed (Some same_point)) w in
  activeAlerts w' = activeAlerts w
  /\ published w' = published w
  /\ console w' = console w.
Proof.
  intros clock toFixed.
  apply (steady_pass_silent clock toFixed same_point initial).
  - intros vehicle data Hget Hbad. exfalso.
    unfold telemetry_get, same_point in Hget.
    repeat match type of Hget with
           | (if ?b then _ else _) = _ => destruct b
           end;
      try discriminate Hget;
      injection Hget as <-; discriminate Hbad.
  - intros k t Hget. rewrite same_point_pass in Hget.
    unfold JsMap.get in Hget.
    destruct (String.eqb "ERU_proximity_MEA" k); [|discriminate Hget].
    injection Hget as <-. split; [discriminate|].
    intros n _. unfold ALERT_UPDATE_DEBOUNCE, clock. lia.
Defined.

(** ** More on the distance *)

Section Distance.

Local Open Scope R_scope.

Lemma calculateDistance_zero (lat lon : R) :
  calculateDistance lat lon lat lon = 0.
Proof.
  rewrite calculateDistance_a.
  assert (Ha : haversine_a lat lon lat lon = 0).
  { unfold haversine_a; cbv zeta.
    replace ((lat - lat) * PI / 180 / 2) with 0 by (unfold Rdiv; ring).
    replace ((lon - lon) * PI / 180 / 2) with 0 by (unfold Rdiv; ring).
    rewrite sin_0. ring. }
  rewrite Ha, Rminus_0_r, sqrt_0, sqrt_1.
  unfold Math_atan2. destruct (Rlt_dec 0 1); [|lra].
  replace (0 / 1) with 0 by (unfold Rdiv; ring).
  rewrite atan_0. ring.
Qed.

(** When the haversine term is the square of the sine of a half angle in
    the first quadrant, the distance is the arc of the full angle. *)
Lemma calculateDistance_half_angle (lat1 lon1 lat2 lon2 h : R) :
  0 <= h < PI / 2 ->
  haversine_a lat1 lon1 lat2 lon2 = sin h * sin h ->
  calculateDistance lat1 lon1 lat2 lon2 = 3959 * (2 * h) * 5280.
Proof.
  intros [Hh0 Hh1] Ha. rewrite calculateDistance_a.
  pose proof PI_RGT_0 as Hpi.
  assert (Hb : 1 - haversine_a lat1 lon1 lat2 lon2 = cos h * cos h).
  { rewrite Ha. pose proof (sin2_cos2 h) as H. unfold Rsqr in H. lra. }
  rewrite Hb, Ha.
  rewrite sqrt_square by (apply sin_ge_0; lra).
  rewrite sqrt_square by (apply Rlt_le, cos_gt_0; lra).
  rewrite Math_atan2_sin_cos by lra.
  reflexivity.
Qed.

Lemma calculateDistance_swap (lat1 lon1 lat2 lon2 : R) :
  calculateDistance lat1 lon1 lat2 lon2 = calculateDistance lat2 lon2 lat1 lon1.
Proof.
  rewrite <- (calculateDistance_in_real lat1 lon1 lat2 lon2).
  rewrite <- (calculateDistance_in_real lat2 lon2 lat1 lon1).
  exact (calculateDistance_in_symmetric (A := real_arithmetic)
           lat1 lon1 lat2 lon2).
Qed.

Lemma calculateDistance_north (lat1 lat2 lon : R) :
  0 <= lat2 - lat1 < 180 ->
  calculateDistance lat1 lon lat2 lon
  = 3959 * (((lat2 - lat1) * PI) / 180) * 5280.
Proof.
  intros [Hlo Hhi]. pose proof PI_RGT_0 as Hpi.
  rewrite (calculateDistance_half_angle lat1 lon lat2 lon
             ((lat2 - lat1) * PI / 180 / 2)).
  - lra.
  - assert (0 <= (lat2 - lat1) * PI) by (apply Rmult_le_pos; lra).
    assert ((lat2 - lat1) * PI < 180 * PI)
      by (apply Rmult_lt_compat_r; lra).
    lra.
  - unfold haversine_a; cbv zeta.
    replace ((lon - lon) * PI / 180 / 2) with 0 by (unfold Rdiv; ring).
    rewrite sin_0. ring.
Qed.

(** X11. Two points on one meridian less than 180 degrees apart: the
    distance is the arc between the latitudes, 3959 * 5280 * PI / 180 ft
    per degree, whichever point comes first. *)
Theorem calculateDistance_meridian (lat1 lat2 lon : R) :
  Rabs (lat2 - lat1) < 180 ->
  calculateDistance lat1 lon lat2 lon
  = 3959 * ((Rabs (lat2 - lat1) * PI) / 180) * 5280.
Proof.
  intros H. destruct (Rle_dec lat1 lat2) as [Hle|Hgt].
  - rewrite Rabs_right in * by lra. apply calculateDistance_north. lra.
  - rewrite Rabs_left in * by lra.
    rewrite calculateDistance_swap.
    replace (- (lat2 - lat1)) with (lat1 - lat2) by ring.
    apply calculateDistance_north. lra.
Qed.

End Distance.

Lemma calculateDistance_meridian_witness :
  (calculateDistance 1 0 0 0 = 3959 * ((Rabs (0 - 1) * PI) / 180) * 5280)%R.
Proof.
  apply calculateDistance_meridian.
  rewrite Rabs_left by lra. lra.
Defined.

Section SamePoint.

Variable clock : nat -> Z.
Variable toFixed : R -> nat -> string.

(** X12. Two vehicles that report the same coordinates are 0 ft apart, so
    the proximity check always takes its emit branch and the pair's alert
    is active afterwards. *)
Theorem same_position_alerts (vehicle1 vehicle2 : string) (lat lon : R)
    (w : World) :
  calculateDistance lat lon lat lon = 0%R
  /\ checkVehicleProximity clock toFixed vehicle1 lat lon vehicle2 lat lon
     = emitAlert clock vehicle1 ("proximity_" ++ vehicle2) warning
         "Warning: Vehicle Proximity"
         (vehicle1 ++ " and " ++ vehicle2 ++ " are within "
            ++ toFixed (calculateDistance lat lon lat lon) 0
            ++ " ft of each other!")
  /\ JsMap.has
       (activeAlerts
          (exec (checkVehicleProximity clock toFixed
                   vehicle1 lat lon vehicle2 lat lon) w))
       (getAlertKey vehicle1 ("proximity_" ++ vehicle2)) = true.
Proof.
  pose proof (calculateDistance_zero lat lon) as Hz.
  assert (Hnear : (calculateDistance lat lon lat lon < 100)%R)
    by (rewrite Hz; lra).
  split; [exact Hz|]. split.
  - now apply checkVehicleProximity_near.
  - rewrite (checkVehicleProximity_near clock toFixed _ _ _ _ _ _ Hnear).
    apply emitAlert_has.
Qed.

End SamePoint.

(** ** A stale connection alert *)

Section Heartbeat.

Variable clock : nat -> Z.
Variable toFixed : R -> nat -> string.

Lemma checkConnectionStatus_other (vehicle status : string) :
  status <> "Disconnected" -> status <> "Connected" ->
  modifies (checkConnectionStatus clock vehicle status)
    [getAlertKey vehicle "signal_strength"].
Proof.
  intros Hd Hc. unfold checkConnectionStatus.
  destruct (String.eqb_spec status "Disconnected"); [contradiction|].
  destruct (String.eqb_spec status "Connected"); [contradiction|].
  apply (modifies_seq _ _ [] [_]); [apply modifies_ret|].
  destruct (String.eqb status "Bad Connection");
    [apply modifies_emitAlert|].
  eapply modifies_incl; [|apply modifies_ret]. intros ? [].
Qed.

Lemma checkVehicle_heartbeat_kept (ts : VehicleTelemetryData)
    (vehicle : string) (data : VehicleData) (w : World) :
  telemetry_get ts vehicle = Some data ->
  vehicle_status data <> "Disconnected" ->
  vehicle_status data <> "Connected" ->
  JsMap.get (activeAlerts (exec (checkVehicle clock toFixed ts vehicle) w))
    (getAlertKey vehicle "heartbeat_timeout")
  = JsMap.get (activeAlerts w) (getAlertKey vehicle "heartbeat_timeout").
Proof.
  intros Hget Hd Hc. rewrite (exec_checkVehicle _ _ _ _ _ _ Hget).
  rewrite (modifies_get _ _ _ _ (modifies_checkGeoFenceStatus _ _ _))
    by notin.
  rewrite (modifies_get _ _ _ _ (modifies_checkBatteryLevel _ _ _ _))
    by notin.
  rewrite (modifies_get _ _ _ _
             (checkConnectionStatus_other _ _ Hd Hc)) by notin.
  rewrite (modifies_get _ _ _ _ (modifies_checkSignalStrength _ _ _))
    by notin.
  reflexivity.
Qed.

(** X13. While a vehicle reports a status that is neither "Connected" nor
    "Disconnected", a pass leaves its heartbeat_timeout alert as it was:
    an active connection-failure alert stays active with its old
    timestamp, an inactive one stays inactive. *)
Theorem heartbeat_alert_kept (ts : VehicleTelemetryData)
    (vehicle : string) (data : VehicleData) (w : World) :
  telemetry_get ts vehicle = Some data ->
  vehicle_status data <> "Disconnected" ->
  vehicle_status data <> "Connected" ->
  JsMap.get (activeAlerts (exec (checkAlerts clock toFixed (Some ts)) w))
    (getAlertKey vehicle "heartbeat_timeout")
  = JsMap.get (activeAlerts w) (getAlertKey vehicle "heartbeat_timeout").
Proof.
  intros Hget Hd Hc.
  pose proof (telemetry_get_in _ _ _ Hget) as Hv.
  pose proof (fun w0 =>
                checkVehicle_heartbeat_kept ts vehicle data w0 Hget Hd Hc)
    as Hkept.
  rewrite exec_checkAlerts.
  destruct Hv as [<-|[<-|[<-|[]]]];
    repeat frame_get; rewrite Hkept; repeat frame_get; reflexivity.
Qed.

End Heartbeat.

Lemma heartbeat_alert_kept_witness :
  let clock := fun n : nat => (9000 + Z.of_nat n)%Z in
  let toFixed := fun (_ : R) (_ : nat) => "0" in
  let data := {| signal_strength := (-50)%R;
                 vehicle_status := "Bad Connection";
                 battery_life := 80%R;
                 current_position := None |} in
  let ts := {| ERU := Some data; MEA := None; MRA := None |} in
  let w := {| activeAlerts := [("ERU_heartbeat_timeout", 1000%Z)];
              published := []; console := []; ticks := 1 |} in
  JsMap.get (activeAlerts (exec (checkAlerts clock toFixed (Some ts)) w))
    "ERU_heartbeat_timeout" = Some 1000%Z.
Proof.
  intros clock toFixed data ts w.
  apply (heartbeat_alert_kept clock toFixed ts "ERU" data w).
  - reflexivity.
  - discriminate.
  - discriminate.
Defined.

(** ** The size of a pass *)

Section Burst.

Variable clock : nat -> Z.
Variable toFixed : R -> nat -> string.

Lemma emits_ret : emits_at_most 0 (ret tt).
Proof. intros w. exists []. now rewrite app_nil_r. Qed.

Lemma emits_seq (n1 n2 : nat) (m1 m2 : M unit) :
  emits_at_most n1 m1 -> emits_at_most n2 m2 ->
  emits_at_most (n1 + n2) (m1 ;; m2).
Proof.
  intros H1 H2 w. rewrite exec_seq.
  destruct (H1 w) as (e1 & E1 & L1).
  destruct (H2 (exec m1 w)) as (e2 & E2 & L2).
  exists (e1 ++ e2)%list. split.
  - now rewrite E2, E1, app_assoc.
  - rewrite length_app. lia.
Qed.

Lemma emits_le (n n' : nat) (m : M unit) :
  (n <= n')%nat -> emits_at_most n m -> emits_at_most n' m.
Proof.
  intros Hle H w. destruct (H w) as (e & E & L).
  exists e. split; [exact E | lia].
Qed.

Lemma emits_emitAlert (vehicle type : string) (severity : Severity)
    (title description : string) :
  emits_at_most 1 (emitAlert clock vehicle type severity title description).
Proof.
  intros w. rewrite emitAlert_exec; cbv zeta.
  destruct (shouldUpdate _ _); simpl.
  - eexists. split; [reflexivity | simpl; lia].
  - exists []. split; [now rewrite app_nil_r | simpl; lia].
Qed.

Lemma emits_clearAlert (vehicle type : string) :
  emits_at_most 1 (clearAlert vehicle type).
Proof.
  intros w. rewrite clearAlert_exec; cbv zeta.
  destruct (JsMap.has _ _); simpl.
  - eexists. split; [reflexivity | simpl; lia].
  - exists []. split; [now rewrite app_nil_r | simpl; lia].
Qed.

(** The two parts of the connection checker exclude each other. *)
Lemma emits_checkConnectionStatus (vehicle status : string) :
  emits_at_most 1 (checkConnectionStatus clock vehicle status).
Proof.
  unfold checkConnectionStatus.
  destruct (String.eqb_spec status "Bad Connection") as [->|Hbad].
  - simpl String.eqb. cbv iota.
    apply (emits_seq 0 1); [apply emits_ret | apply emits_emitAlert].
  - apply (emits_seq 1 0); [|apply emits_ret].
    destruct (String.eqb status "Disconnected"); [apply emits_emitAlert|].
    destruct (String.eqb status "Connected"); [apply emits_clearAlert|].
    apply (emits_le 0); [lia | apply emits_ret].
Qed.

Lemma emits_checkVehicle (ts : VehicleTelemetryData) (vehicle : string) :
  emits_at_most 4 (checkVehicle clock toFixed ts vehicle).
Proof.
  unfold checkVehicle. destruct (telemetry_get ts vehicle) as [data|];
    [|apply (emits_le 0); [lia | apply emits_ret]].
  apply (emits_seq 1 3); [|apply (emits_seq 1 2); [|apply (emits_seq 1 1)]].
  - unfold checkSignalStrength.
    destruct (Rlt_dec _ _); [apply emits_emitAlert | apply emits_clearAlert].
  - apply emits_checkConnectionStatus.
  - unfold checkBatteryLevel.
    destruct (Rlt_dec _ _); [apply emits_emitAlert | apply emits_clearAlert].
  - unfold checkGeoFenceStatus.
    destruct (String.eqb _ _); simpl;
      [apply emits_emitAlert | apply emits_clearAlert].
Qed.

Lemma emits_checkPair (vehicle1 vehicle2 : string)
    (d1 d2 : option VehicleData) :
  emits_at_most 1 (checkPair clock toFixed vehicle1 d1 vehicle2 d2).
Proof.
  unfold checkPair.
  destruct (position_of d1); [destruct (position_of d2)|];
    try (apply (emits_le 0); [lia | apply emits_ret]).
  unfold checkVehicleProximity; cbv zeta.
  destruct (Rlt_dec _ _); [apply emits_emitAlert | apply emits_clearAlert].
Qed.

(** X14. A pass never rewrites the trace: it appends to what was
    published, and at most fifteen events, four for each vehicle and one
    for each pair. *)
Theorem checkAlerts_burst (ts : option VehicleTelemetryData) (w : World) :
  exists evs : list Event,
    published (exec (checkAlerts clock toFixed ts) w)
    = (published w ++ evs)%list
    /\ (List.length evs <= 15)%nat.
Proof.
  revert w. change (emits_at_most 15 (checkAlerts clock toFixed ts)).
  destruct ts as [ts|]; [|apply (emits_le 0); [lia | apply emits_ret]].
  unfold checkAlerts, vehicles, forEach.
  apply (emits_seq 12 3).
  - apply (emits_seq 4 8); [apply emits_checkVehicle|].
    apply (emits_seq 4 4); [apply emits_checkVehicle|].
    apply (emits_seq 4 0); [apply emits_checkVehicle | apply emits_ret].
  - apply (emits_seq 1 2); [apply emits_checkPair|].
    apply (emits_seq 1 1); apply emits_checkPair.
Qed.

End Burst.
